(** * app-transcribe: the transcription pipeline and its status controller

    A shallow embedding of
      - [src/lib/whisper.ts]: [downloadToTemp], [extractAndCompressAudio],
        [transcribeAudio], [cleanupTempFiles], [transcribeVideo];
      - [src/app/api/transcribe/route.ts]: the [POST] handler.

    The asynchronous TypeScript code is sequential inside one invocation, so
    it is embedded in a state-and-exception monad over a [World] that holds
    the record store and the log of every call made to an external
    collaborator.  What the collaborators answer (the network, ffmpeg, the
    speech service, the file system, the record store's faults, the clock) is
    not fixed: it is read from a [Collaborators] record of oracles that see
    the whole call history, so that every theorem quantifies over every
    behaviour of the environment.

    What is taken for granted about the platform:
      - [NextResponse.json], [console.error], [new File], [Buffer.from] and
        [path.basename] do not throw;
      - [prisma.video.update] is atomic: a call that throws has written
        nothing;
      - the [id] column is a string, and the client refuses any other
        [where.id];
      - the rows of the store change only through the invocation at hand
        (other requests are not interleaved with it). *)

From Stdlib Require Import ZArith QArith Qround Lqa String Ascii List Lia.
From stdpp Require Import base option gmap strings list pretty.
Import ListNotations.

Local Open Scope string_scope.
Local Open Scope list_scope.

(** ** JavaScript values *)

(** The JavaScript values the handler meets: what [request.json()] parses
    (never [undefined]), what a destructuring binds, and what is handed to
    [NextResponse.json].  Numbers that come from JSON or from the record
    store are finite doubles; every finite double is a rational, and the two
    operations performed on numbers here (the truthiness test and
    [Math.round]) are exact on rationals, so numbers are modelled in [Q]
    (the sign of zero, which neither operation nor the store observes, is
    not kept). *)
#[warnings="-register-all"]
Inductive JsValue : Type :=
| JUndefined
| JNull
| JBool (b : bool)
| JNum (q : Q)
| JStr (s : string)
| JArr (items : list JsValue)
| JObj (fields : list (string * JsValue)).

(** A thrown value: an [Error] (of any subclass) carrying its [message], or
    any other value. *)
Inductive Thrown : Type :=
| JsError (message : string)
| JsNonError (v : JsValue).

(** JavaScript truthiness, for the types the code tests. *)
Definition string_truthy (s : string) : bool :=
  match s with EmptyString => false | String _ _ => true end.

Definition number_truthy (q : Q) : bool := negb (Qnum q =? 0)%Z.

(** [x ? .. : ..] and [x || ..] on a field that may be absent or null. *)
Definition opt_truthy {A} (t : A -> bool) (o : option A) : bool :=
  match o with Some a => t a | None => false end.

Definition truthy (v : JsValue) : bool :=
  match v with
  | JUndefined => false
  | JNull => false
  | JBool b => b
  | JNum q => number_truthy q
  | JStr s => string_truthy s
  | JArr _ => true
  | JObj _ => true
  end.

(** [Math.round]: the nearest integer, ties towards +infinity. *)
Definition Math_round (q : Q) : Q := inject_Z (Qfloor (q + (1 # 2))).

(** Own-property lookup on a parsed JSON object (whose property names are
    distinct); a missing property reads as [undefined]. *)
Fixpoint get_field (k : string) (fields : list (string * JsValue)) : JsValue :=
  match fields with
  | [] => JUndefined
  | (k', v) :: rest => if String.eqb k k' then v else get_field k rest
  end.

Definition dquote : string := String "034"%char EmptyString.

(** ** The record store's data *)

Inductive TranscriptionStatus : Type := NONE | PROCESSING | COMPLETED | FAILED.

(** The columns of a [Video] row that the handler reads or writes. *)
Record Video : Type := mkVideo {
  id : string;
  fileKey : string;
  duration : option Q;
  transcription : option string;
  transcriptionStatus : TranscriptionStatus
}.

(** The [data] argument of [prisma.video.update]: [None] is an absent field,
    [Some None] writes SQL NULL. *)
Record UpdateData : Type := mkData {
  data_transcription : option (option string);
  data_transcriptionStatus : option TranscriptionStatus;
  data_duration : option (option Q)
}.

Definition apply_update (v : Video) (d : UpdateData) : Video :=
  {| id := id v;
     fileKey := fileKey v;
     duration := default (duration v) (data_duration d);
     transcription := default (transcription v) (data_transcription d);
     transcriptionStatus :=
       default (transcriptionStatus v) (data_transcriptionStatus d) |}.

(** ** Calls to collaborators, and the world *)

Inductive Event : Type :=
| EvFindUnique (where_id : JsValue)
| EvUpdate (where_id : JsValue) (data : UpdateData)
| EvFetch (url : string)
| EvWriteFile (path : string)
| EvExec (command : string)
| EvReadFile (path : string)
| EvWhisper (path : string)
| EvUnlink (path : string).

(** A committed write of the record store: the [data] written, and the row
    before and after. *)
Record Write : Type := mkWrite {
  w_id : string;
  w_data : UpdateData;
  w_before : Video;
  w_after : Video
}.

Record World : Type := mkWorld {
  db : gmap string Video;
  trace : list Event;
  writes : list Write
}.

Record FetchResponse : Type := mkResp {
  ok : bool;
  statusText : string;
  arrayBuffer_fault : option Thrown
}.

Record TranscriptionResult : Type := mkResult {
  text : string;
  result_duration : option Q
}.

(** The environment.  Every oracle is asked with the trace up to and
    including the call it answers. *)
Record Collaborators : Type := mkCollab {
  os_tmpdir : string;
  Date_now : list Event -> N;
  db_fault : list Event -> option Thrown;
  fetch_outcome : list Event -> Thrown + FetchResponse;
  writeFile_fault : list Event -> option Thrown;
  exec_fault : list Event -> option Thrown;
  readFile_fault : list Event -> option Thrown;
  whisper_outcome : list Event -> Thrown + TranscriptionResult;
  unlink_fault : list Event -> option Thrown
}.

(** ** The monad: state passing with exceptions *)

Definition M (A : Type) : Type := World -> World * (Thrown + A).

Definition ret {A} (a : A) : M A := fun w => (w, inr a).

Definition throw {A} (e : Thrown) : M A := fun w => (w, inl e).

Definition bind {A B} (m : M A) (k : A -> M B) : M B :=
  fun w => match m w with
           | (w', inl e) => (w', inl e)
           | (w', inr a) => k a w'
           end.

(** [try { m } catch (error) { h error }] *)
Definition try_catch {A} (m : M A) (h : Thrown -> M A) : M A :=
  fun w => match m w with
           | (w', inl e) => h e w'
           | (w', inr a) => (w', inr a)
           end.

Notation "x <~ m ;; k" := (bind m (fun x => k))
  (at level 100, m at next level, right associativity).
Notation "m ;;; k" := (bind m (fun _ => k))
  (at level 100, right associativity).

(** The world after one more call [ev] has been made. *)
Definition logged (ev : Event) (w : World) : World :=
  {| db := db w; trace := trace w ++ [ev]; writes := writes w |}.

Definition log (ev : Event) : M unit := fun w => (logged ev w, inr tt).

Definition lift {A} (r : Thrown + A) : M A :=
  match r with inl e => throw e | inr a => ret a end.

Definition get_trace : M (list Event) := fun w => (w, inr (trace w)).

(** Raise the fault the oracle schedules for the call just logged, if any. *)
Definition fault (oracle : list Event -> option Thrown) : M unit :=
  tr <~ get_trace ;;
  match oracle tr with
  | Some e => throw e
  | None => ret tt
  end.


Definition get_db : M (gmap string Video) := fun w => (w, inr (db w)).

(** ** [src/lib/whisper.ts] *)

Section Pipeline.

Variable E : Collaborators.

(** [path.join(tempDir, name)]; [os.tmpdir()] has no trailing separator. *)
Definition path_join (dir name : string) : string := dir +:+ "/" +:+ name.

(** The template literals of lines 79 and 28. *)
Definition video_temp_name (now : N) : string := "video_" +:+ pretty now +:+ ".mp4".
Definition audio_temp_name (now : N) : string := "audio_" +:+ pretty now +:+ ".mp3".

Definition ffmpeg_command (videoPath audioPath : string) : string :=
  "ffmpeg -i " +:+ dquote +:+ videoPath +:+ dquote
  +:+ " -vn -ac 1 -ar 16000 -b:a 32k -y " +:+ dquote +:+ audioPath +:+ dquote.

Definition extractAndCompressAudio (videoPath : string) : M string :=
  let tempDir := os_tmpdir E in
  now <~ (fun w => (w, inr (Date_now E (trace w)))) ;;
  let audioPath := path_join tempDir (audio_temp_name now) in
  let command := ffmpeg_command videoPath audioPath in
  try_catch
    (log (EvExec command) ;;;
     fault (exec_fault E) ;;;
     ret audioPath)
    (fun error => throw (JsError "Failed to extract audio from video")).

Definition transcribeAudio (audioPath : string) : M TranscriptionResult :=
  try_catch
    (log (EvReadFile audioPath) ;;;
     fault (readFile_fault E) ;;;
     log (EvWhisper audioPath) ;;;
     tr <~ get_trace ;;
     match whisper_outcome E tr with
     | inl e => throw e
     | inr transcription =>
         ret {| text := text transcription;
                result_duration := result_duration transcription |}
     end)
    (fun error => throw (JsError "Failed to transcribe audio")).

Definition downloadToTemp (url : string) : M string :=
  let tempDir := os_tmpdir E in
  now <~ (fun w => (w, inr (Date_now E (trace w)))) ;;
  let tempPath := path_join tempDir (video_temp_name now) in
  log (EvFetch url) ;;;
  tr <~ get_trace ;;
  match fetch_outcome E tr with
  | inl e => throw e
  | inr response =>
      if negb (ok response)
      then throw (JsError ("Failed to download: " +:+ statusText response))
      else
        match arrayBuffer_fault response with
        | Some e => throw e
        | None =>
            log (EvWriteFile tempPath) ;;;
            fault (writeFile_fault E) ;;;
            ret tempPath
        end
  end.

(** The loop of [cleanupTempFiles]: each [unlink] is wrapped in its own
    [try]/[catch] that ignores the error. *)
Fixpoint cleanupTempFiles (paths : list string) : M unit :=
  match paths with
  | [] => ret tt
  | filePath :: rest =>
      try_catch
        (log (EvUnlink filePath) ;;; fault (unlink_fault E))
        (fun _ => ret tt) ;;;
      cleanupTempFiles rest
  end.

(** The two mutable locals of [transcribeVideo]. *)
Record Locals : Type := mkLocals {
  videoPath : option string;
  audioPath : option string
}.

(** [[videoPath, audioPath].filter(Boolean)] *)
Fixpoint filter_Boolean (l : list (option string)) : list string :=
  match l with
  | [] => []
  | Some s :: rest =>
      if string_truthy s then s :: filter_Boolean rest else filter_Boolean rest
  | None :: rest => filter_Boolean rest
  end.

(** The [try] block of [transcribeVideo], with the locals as they stand when
    the block is left, normally or by an exception. *)
Definition transcribeVideo_try (videoUrl : string)
  : World -> World * Locals * (Thrown + TranscriptionResult) :=
  fun w =>
    match downloadToTemp videoUrl w with
    | (w1, inl e) => (w1, mkLocals None None, inl e)
    | (w1, inr vp) =>
        match extractAndCompressAudio vp w1 with
        | (w2, inl e) => (w2, mkLocals (Some vp) None, inl e)
        | (w2, inr ap) =>
            match transcribeAudio ap w2 with
            | (w3, r) => (w3, mkLocals (Some vp) (Some ap), r)
            end
        end
    end.

(** The [finally] block. *)
Definition transcribeVideo_finally (l : Locals) : M unit :=
  if opt_truthy string_truthy (videoPath l) || opt_truthy string_truthy (audioPath l)
  then cleanupTempFiles (filter_Boolean [videoPath l; audioPath l])
  else ret tt.

(** [try { .. } finally { .. }]: the [finally] block runs on both exits; were
    it to throw, its exception would replace the outcome of the [try]. *)
Definition transcribeVideo (videoUrl : string) : M TranscriptionResult :=
  fun w =>
    match transcribeVideo_try videoUrl w with
    | (w1, l, r) =>
        match transcribeVideo_finally l w1 with
        | (w2, inl e) => (w2, inl e)
        | (w2, inr _) => (w2, r)
        end
    end.

End Pipeline.

(** The paths handed to [fs.unlink] along a trace, in order. *)
Fixpoint unlinked (tr : list Event) : list string :=
  match tr with
  | [] => []
  | EvUnlink p :: rest => p :: unlinked rest
  | _ :: rest => unlinked rest
  end.

(** What no pipeline stage touches: the record store, and the list of paths
    already unlinked (a stage never deletes a file). *)
Definition same_store (w w' : World) : Prop :=
  db w' = db w /\ writes w' = writes w
  /\ unlinked (trace w') = unlinked (trace w).

(** The world after [cleanupTempFiles(...paths)]. *)
Definition cleaned (paths : list string) (w : World) : World :=
  {| db := db w; trace := trace w ++ map EvUnlink paths; writes := writes w |}.

(** ** The record store, as [prisma.video] is used *)

Section Handler.

Variable E : Collaborators.

(** The [id] column is a string; any other [where.id] is refused by the
    client's argument validation. *)
Definition validation_error (method : string) : Thrown :=
  JsError ("Invalid `prisma.video." +:+ method +:+ "()` invocation").

Definition findUnique (where_id : JsValue) : M (option Video) :=
  log (EvFindUnique where_id) ;;;
  fault (db_fault E) ;;;
  match where_id with
  | JStr key => rows <~ get_db ;; ret (rows !! key)
  | _ => throw (validation_error "findUnique")
  end.

(** A single-row update: atomic, so a faulting call leaves the row as it
    was; a committed one is appended to [writes]. *)
Definition commit (key : string) (data : UpdateData) : M Video :=
  fun w =>
    match db w !! key with
    | None => (w, inl (JsError "Record to update not found."))
    | Some v =>
        let v' := apply_update v data in
        ({| db := <[key := v']> (db w);
            trace := trace w;
            writes := writes w ++ [mkWrite key data v v'] |}, inr v')
    end.

Definition update (where_id : JsValue) (data : UpdateData) : M Video :=
  log (EvUpdate where_id data) ;;;
  fault (db_fault E) ;;;
  match where_id with
  | JStr key => commit key data
  | _ => throw (validation_error "update")
  end.

(** ** [src/app/api/transcribe/route.ts] *)

Record NextRequest : Type := mkRequest {
  request_json : Thrown + JsValue
}.

Record Response : Type := mkResponse {
  status : Z;
  body : JsValue
}.

(** [NextResponse.json(body, { status })]; the status defaults to 200. *)
Definition NextResponse_json (body : JsValue) (init : option Z) : Response :=
  {| status := default 200%Z init; body := body |}.

Definition error_body (message : string) : JsValue :=
  JObj [("error", JStr message)].

Definition status_eqb (a b : TranscriptionStatus) : bool :=
  match a, b with
  | NONE, NONE | PROCESSING, PROCESSING
  | COMPLETED, COMPLETED | FAILED, FAILED => true
  | _, _ => false
  end.

(** [const { videoId } = await request.json()] *)
Definition destructure_videoId (request : NextRequest) : Thrown + JsValue :=
  match request_json request with
  | inl e => inl e
  | inr JUndefined | inr JNull =>
      inl (JsError "Cannot destructure property 'videoId' of 'null'")
  | inr (JObj fields) => inr (get_field "videoId" fields)
  | inr _ => inr JUndefined
  end.

(** [process.env.OPENAI_API_KEY], as a condition *)
Definition credential_configured (env : gmap string string) : bool :=
  opt_truthy string_truthy (env !! "OPENAI_API_KEY").

(** Line 37: [video.transcriptionStatus === "COMPLETED" && video.transcription] *)
Definition already_transcribed (video : Video) : bool :=
  status_eqb (transcriptionStatus video) COMPLETED
  && opt_truthy string_truthy (transcription video).

(** [process.env.X || fallback] *)
Definition env_or (env : gmap string string) (name fallback : string) : string :=
  match env !! name with
  | Some s => if string_truthy s then s else fallback
  | None => fallback
  end.

Definition opt_json {A} (f : A -> JsValue) (o : option A) : JsValue :=
  match o with Some a => f a | None => JNull end.

(** Line 67: [result.duration ? Math.round(result.duration) : video.duration] *)
Definition new_duration (result : TranscriptionResult) (video : Video) : option Q :=
  match result_duration result with
  | Some d => if number_truthy d then Some (Math_round d) else duration video
  | None => duration video
  end.

Definition processing_data : UpdateData :=
  {| data_transcription := None;
     data_transcriptionStatus := Some PROCESSING;
     data_duration := None |}.

Definition completed_data (result : TranscriptionResult) (video : Video) : UpdateData :=
  {| data_transcription := Some (Some (text result));
     data_transcriptionStatus := Some COMPLETED;
     data_duration := Some (new_duration result video) |}.

Definition failed_data : UpdateData :=
  {| data_transcription := None;
     data_transcriptionStatus := Some FAILED;
     data_duration := None |}.

Definition cached_response (video : Video) : Response :=
  NextResponse_json
    (JObj [("success", JBool true);
           ("transcription", opt_json JStr (transcription video));
           ("status", JStr "COMPLETED");
           ("cached", JBool true)]) None.

Definition success_response (updatedVideo : Video) : Response :=
  NextResponse_json
    (JObj [("success", JBool true);
           ("transcription", opt_json JStr (transcription updatedVideo));
           ("status", JStr "COMPLETED");
           ("duration", opt_json JNum (duration updatedVideo))]) None.

(** [error instanceof Error ? error.message : "Transcription failed"] *)
Definition error_message (error : Thrown) : string :=
  match error with
  | JsError message => message
  | JsNonError _ => "Transcription failed"
  end.

Definition videoUrl_of (env : gmap string string) (video : Video) : string :=
  let s3Endpoint := env_or env "S3_ENDPOINT" "http://minio:9002" in
  let bucket := env_or env "S3_BUCKET" "videos" in
  s3Endpoint +:+ "/" +:+ bucket +:+ "/" +:+ fileKey video.

(** Lines 52-89: the inner [try]/[catch]. *)
Definition run_and_save (env : gmap string string) (videoId : JsValue) (video : Video)
  : M Response :=
  try_catch
    (let videoUrl := videoUrl_of env video in
     result <~ transcribeVideo E videoUrl ;;
     updatedVideo <~ update videoId (completed_data result video) ;;
     ret (success_response updatedVideo))
    (fun error =>
       update videoId failed_data ;;;
       ret (NextResponse_json (error_body (error_message error)) (Some 500%Z))).

(** The handler; [env] is [process.env]. *)
Definition POST (env : gmap string string) (request : NextRequest) : M Response :=
  try_catch
    (videoId <~ lift (destructure_videoId request) ;;
     if negb (truthy videoId)
     then ret (NextResponse_json (error_body "Video ID is required") (Some 400%Z))
     else
     if negb (credential_configured env)
     then ret (NextResponse_json (error_body "OpenAI API key not configured")
                                 (Some 500%Z))
     else
     video <~ findUnique videoId ;;
     match video with
     | None => ret (NextResponse_json (error_body "Video not found") (Some 404%Z))
     | Some video =>
         if already_transcribed video
         then ret (cached_response video)
         else
           update videoId processing_data ;;;
           run_and_save env videoId video
     end)
    (fun error =>
       ret (NextResponse_json (error_body "Internal server error") (Some 500%Z))).

End Handler.

(** The calls made by the pipeline, as opposed to those made to the record
    store. *)
Definition is_pipeline_event (ev : Event) : bool :=
  match ev with
  | EvFindUnique _ | EvUpdate _ _ => false
  | _ => true
  end.

Definition pipeline_calls (w : World) : list Event :=
  filter is_pipeline_event (trace w).

(** The status change made by a committed write. *)
Definition transition (wr : Write) : TranscriptionStatus * TranscriptionStatus :=
  (transcriptionStatus (w_before wr), transcriptionStatus (w_after wr)).

(** The status changes a write of the handler makes: the four of the state
    machine, the re-marking of a row that is already PROCESSING, and the
    re-entry of a COMPLETED row whose transcription is null or empty. *)
Definition allowed_transition (wr : Write) : Prop :=
  In (transition wr)
     [(NONE, PROCESSING); (FAILED, PROCESSING); (PROCESSING, PROCESSING);
      (PROCESSING, COMPLETED); (PROCESSING, FAILED)]
  \/ (transition wr = (COMPLETED, PROCESSING)
      /\ opt_truthy string_truthy (transcription (w_before wr)) = false).

(** The invariant of the data model. *)
Definition completed_has_text (v : Video) : Prop :=
  transcriptionStatus v = COMPLETED -> transcription v <> None.

(** The world after [update] has committed [data] on the row [v] at [key]. *)
Definition committed (key : string) (data : UpdateData) (v : Video) (w : World)
  : World :=
  {| db := <[key := apply_update v data]> (db w);
     trace := trace w ++ [EvUpdate (JStr key) data];
     writes := writes w ++ [mkWrite key data v (apply_update v data)] |}.

(** The world in which the pipeline starts: the row was looked up and marked
    PROCESSING. *)
Definition marked_processing (key : string) (v : Video) (w : World) : World :=
  committed key processing_data v (logged (EvFindUnique (JStr key)) w).

(** What one invocation of the handler did to the record store, and what it
    answered. *)
Inductive Run (E : Collaborators) (env : gmap string string)
          (request : NextRequest) (w : World) : World -> Response -> Prop :=
| run_rejected w' resp :
    db w' = db w -> writes w' = writes w ->
    pipeline_calls w' = pipeline_calls w ->
    status resp = 400%Z \/ status resp = 404%Z \/ status resp = 500%Z ->
    Run E env request w w' resp
| run_cached w' key v :
    destructure_videoId request = inr (JStr key) ->
    db w' = db w -> writes w' = writes w ->
    pipeline_calls w' = pipeline_calls w ->
    db w !! key = Some v -> already_transcribed v = true ->
    Run E env request w w' (cached_response v)
| run_stuck w' key v resp :
    destructure_videoId request = inr (JStr key) ->
    db w !! key = Some v -> already_transcribed v = false ->
    db w' = <[key := apply_update v processing_data]> (db w) ->
    writes w' = writes w
                ++ [mkWrite key processing_data v (apply_update v processing_data)] ->
    status resp = 500%Z ->
    Run E env request w w' resp
| run_failed w' key v resp :
    let v1 := apply_update v processing_data in
    destructure_videoId request = inr (JStr key) ->
    db w !! key = Some v -> already_transcribed v = false ->
    db w' = <[key := apply_update v1 failed_data]> (<[key := v1]> (db w)) ->
    writes w' = writes w
                ++ [mkWrite key processing_data v v1;
                    mkWrite key failed_data v1 (apply_update v1 failed_data)] ->
    status resp = 500%Z ->
    Run E env request w w' resp
| run_completed w' key v w2 result :
    let v1 := apply_update v processing_data in
    let v2 := apply_update v1 (completed_data result v) in
    destructure_videoId request = inr (JStr key) ->
    db w !! key = Some v -> already_transcribed v = false ->
    transcribeVideo E (videoUrl_of env v) (marked_processing key v w)
    = (w2, inr result) ->
    db w' = <[key := v2]> (<[key := v1]> (db w)) ->
    writes w' = writes w
                ++ [mkWrite key processing_data v v1;
                    mkWrite key (completed_data result v) v1 v2] ->
    Run E env request w w' (success_response v2).

(** ** Concrete scenarios *)

Definition env_with_key : gmap string string := {[ "OPENAI_API_KEY" := "sk-test" ]}.

Definition request_for (videoId : string) : NextRequest :=
  mkRequest (inr (JObj [("videoId", JStr videoId)])).

Definition world_with (v : Video) : World :=
  {| db := {[ id v := v ]}; trace := []; writes := [] |}.

(** Every collaborator answers; the speech service returns [result]. *)
Definition all_succeed (result : TranscriptionResult) : Collaborators :=
  {| os_tmpdir := "/tmp";
     Date_now := fun _ => 1700000000000%N;
     db_fault := fun _ => None;
     fetch_outcome := fun _ => inr (mkResp true "OK" None);
     writeFile_fault := fun _ => None;
     exec_fault := fun _ => None;
     readFile_fault := fun _ => None;
     whisper_outcome := fun _ => inr result;
     unlink_fault := fun _ => None |}.

(** ffmpeg exits non-zero; everything else answers. *)
Definition extraction_fails : Collaborators :=
  {| os_tmpdir := "/tmp";
     Date_now := fun _ => 1700000000000%N;
     db_fault := fun _ => None;
     fetch_outcome := fun _ => inr (mkResp true "OK" None);
     writeFile_fault := fun _ => None;
     exec_fault := fun _ => Some (JsError "Command failed: ffmpeg");
     readFile_fault := fun _ => None;
     whisper_outcome := fun _ => inr (mkResult "unused" None);
     unlink_fault := fun _ => None |}.

Definition writes_FAILED (ev : Event) : bool :=
  match ev with
  | EvUpdate _ data =>
      match data_transcriptionStatus data with Some FAILED => true | _ => false end
  | _ => false
  end.

(** ffmpeg exits non-zero, and the record store then refuses the write of
    FAILED (a lost connection, say). *)
Definition extraction_and_store_fail : Collaborators :=
  {| os_tmpdir := "/tmp";
     Date_now := fun _ => 1700000000000%N;
     db_fault := fun tr =>
       if opt_truthy writes_FAILED (last tr)
       then Some (JsError "Can't reach database server") else None;
     fetch_outcome := fun _ => inr (mkResp true "OK" None);
     writeFile_fault := fun _ => None;
     exec_fault := fun _ => Some (JsError "Command failed: ffmpeg");
     readFile_fault := fun _ => None;
     whisper_outcome := fun _ => inr (mkResult "unused" None);
     unlink_fault := fun _ => None |}.

Definition fresh_video : Video :=
  {| id := "v1"; fileKey := "k.mp4"; duration := Some (30 # 1);
     transcription := None; transcriptionStatus := NONE |}.

Definition completed_video (t : string) : Video :=
  {| id := "v1"; fileKey := "k.mp4"; duration := Some (30 # 1);
     transcription := Some t; transcriptionStatus := COMPLETED |}.

(** ** The calls of one pipeline run *)

(** The five calls [transcribeVideo] makes when nothing fails, in order, for
    a video path [vp] and an audio path [ap]. *)
Definition pipeline_script (url vp ap : string) : list Event :=
  [EvFetch url; EvWriteFile vp; EvExec (ffmpeg_command vp ap);
   EvReadFile ap; EvWhisper ap].

(** The paths the locals hold once [n] calls of the script have been made
    and the [try] block is left. *)
Definition held_after (n : nat) (vp ap : string) : list string :=
  match n with
  | 0 | 1 | 2 => []
  | 3 => [vp]
  | _ => [vp; ap]
  end.

(** The video path and the audio path of a run started in [w]: the clock is
    read a second time once the download has logged its two calls. *)
Definition video_path_of (E : Collaborators) (w : World) : string :=
  path_join (os_tmpdir E) (video_temp_name (Date_now E (trace w))).

Definition audio_path_of (E : Collaborators) (url : string) (w : World) : string :=
  path_join (os_tmpdir E)
    (audio_temp_name
       (Date_now E (trace w ++ [EvFetch url; EvWriteFile (video_path_of E w)]))).

(** Whether the [i]-th call of the script fails, asked of the oracles at the
    trace that call is made in: the fetch fails when it throws, answers a
    non-success status, or its body cannot be read. *)
Definition is_thrown (o : option Thrown) : bool :=
  match o with Some _ => true | None => false end.

Definition step_fails (E : Collaborators) (url : string) (w : World) (i : nat)
  : bool :=
  let tr := trace w ++ take i (pipeline_script url (video_path_of E w)
                                               (audio_path_of E url w)) in
  match i with
  | 1 => match fetch_outcome E tr with
         | inl _ => true
         | inr response =>
             negb (ok response) || is_thrown (arrayBuffer_fault response)
         end
  | 2 => is_thrown (writeFile_fault E tr)
  | 3 => is_thrown (exec_fault E tr)
  | 4 => is_thrown (readFile_fault E tr)
  | 5 => match whisper_outcome E tr with inl _ => true | inr _ => false end
  | _ => false
  end.

(** The first call that fails, or 5 when none of the first four does. *)
Definition stop_point (E : Collaborators) (url : string) (w : World) : nat :=
  if step_fails E url w 1 then 1
  else if step_fails E url w 2 then 2
  else if step_fails E url w 3 then 3
  else if step_fails E url w 4 then 4
  else 5.

(** A property of the JSON object a response carries. *)
Definition response_field (name : string) (resp : Response) : JsValue :=
  match body resp with
  | JObj fields => get_field name fields
  | _ => JUndefined
  end.

(** The two shapes of the body of an answer of the handler. *)
Definition is_error_answer (resp : Response) : Prop :=
  exists message,
    body resp = JObj [("error", JStr message)]
    /\ In (status resp) [400; 404; 500]%Z.

Definition is_transcription_answer (resp : Response) : Prop :=
  status resp = 200%Z
  /\ exists t last,
       body resp = JObj [("success", JBool true); ("transcription", JStr t);
                         ("status", JStr "COMPLETED"); last]
       /\ (last = ("cached", JBool true)
           \/ exists d, last = ("duration", opt_json JNum d)).

(** ** The route [GET /api/videos/[id]] ([src/unnamed/part_000], lines
    252-290) *)

(** The body of its response: the error object, or the row spread into an
    object together with [downloadUrl] (the row is kept as the row). *)
Inductive VideoBody : Type :=
| VideoError (error : string)
| VideoFound (video : Video) (downloadUrl : string).

Record VideoResponse : Type := mkVideoResponse {
  video_status : Z;
  video_body : VideoBody
}.

Section VideoRoute.

Variable E : Collaborators.

(** [getSignedDownloadUrl] lives in [@/lib/storage], which is not part of the
    sources at hand: what it answers for a file key is a parameter. *)
Variable getSignedDownloadUrl : string -> Thrown + string.

Definition GET (id : string) : M VideoResponse :=
  try_catch
    (video <~ findUnique E (JStr id) ;;
     match video with
     | None => ret (mkVideoResponse 404 (VideoError "Video not found"))
     | Some video =>
         downloadUrl <~ lift (getSignedDownloadUrl (fileKey video)) ;;
         ret (mkVideoResponse 200 (VideoFound video downloadUrl))
     end)
    (fun error => ret (mkVideoResponse 500 (VideoError "Failed to fetch video"))).

End VideoRoute.

(** ** More scenarios *)

(** The object store answers 404 Not Found. *)
Definition download_refused : Collaborators :=
  {| os_tmpdir := "/tmp";
     Date_now := fun _ => 1700000000000%N;
     db_fault := fun _ => None;
     fetch_outcome := fun _ => inr (mkResp false "Not Found" None);
     writeFile_fault := fun _ => None;
     exec_fault := fun _ => None;
     readFile_fault := fun _ => None;
     whisper_outcome := fun _ => inr (mkResult "unused" None);
     unlink_fault := fun _ => None |}.

(** The speech service is down, and no temp file can be unlinked. *)
Definition service_and_unlink_fail : Collaborators :=
  {| os_tmpdir := "/tmp";
     Date_now := fun tr => (1700000000000 + N.of_nat (length tr))%N;
     db_fault := fun _ => None;
     fetch_outcome := fun _ => inr (mkResp true "OK" None);
     writeFile_fault := fun _ => None;
     exec_fault := fun _ => None;
     readFile_fault := fun _ => None;
     whisper_outcome := fun _ => inl (JsNonError (JStr "503"));
     unlink_fault := fun _ => Some (JsError "EPERM: operation not permitted") |}.

Definition writes_COMPLETED (ev : Event) : bool :=
  match ev with
  | EvUpdate _ data =>
      match data_transcriptionStatus data with Some COMPLETED => true | _ => false end
  | _ => false
  end.

(** The pipeline succeeds, and the record store refuses the write of the
    result. *)
Definition save_refused (result : TranscriptionResult) : Collaborators :=
  {| os_tmpdir := "/tmp";
     Date_now := fun _ => 1700000000000%N;
     db_fault := fun tr =>
       if opt_truthy writes_COMPLETED (last tr)
       then Some (JsError "Can't reach database server") else None;
     fetch_outcome := fun _ => inr (mkResp true "OK" None);
     writeFile_fault := fun _ => None;
     exec_fault := fun _ => None;
     readFile_fault := fun _ => None;
     whisper_outcome := fun _ => inr result;
     unlink_fault := fun _ => None |}.

Definition is_update (ev : Event) : bool :=
  match ev with EvUpdate _ _ => true | _ => false end.

(** The record store answers lookups and refuses every update. *)
Definition updates_refused : Collaborators :=
  {| os_tmpdir := "/tmp";
     Date_now := fun _ => 1700000000000%N;
     db_fault := fun tr =>
       if opt_truthy is_update (last tr)
       then Some (JsError "Can't reach database server") else None;
     fetch_outcome := fun _ => inr (mkResp true "OK" None);
     writeFile_fault := fun _ => None;
     exec_fault := fun _ => None;
     readFile_fault := fun _ => None;
     whisper_outcome := fun _ => inr (mkResult "unused" None);
     unlink_fault := fun _ => None |}.

(** The download is answered, and the disk refuses the write of it. *)
Definition disk_full : Collaborators :=
  {| os_tmpdir := "/tmp";
     Date_now := fun _ => 1700000000000%N;
     db_fault := fun _ => None;
     fetch_outcome := fun _ => inr (mkResp true "OK" None);
     writeFile_fault := fun _ => Some (JsError "ENOSPC: no space left on device");
     exec_fault := fun _ => None;
     readFile_fault := fun _ => None;
     whisper_outcome := fun _ => inr (mkResult "unused" None);
     unlink_fault := fun _ => None |}.

Definition processing_video : Video :=
  {| id := "v1"; fileKey := "k.mp4"; duration := None;
     transcription := None; transcriptionStatus := PROCESSING |}.

Definition signer (fileKey : string) : Thrown + string :=
  inr ("https://storage.example/" +:+ fileKey +:+ "?signature=abc").

(** * Properties of the pipeline *)

Section PipelineFacts.

Variable E : Collaborators.

Lemma unlinked_app tr1 tr2 : unlinked (tr1 ++ tr2) = unlinked tr1 ++ unlinked tr2.
Proof.
  induction tr1 as [|ev tr1 IH]; simpl; [reflexivity|].
  destruct ev; simpl; rewrite IH; reflexivity.
Qed.

Lemma unlinked_map_EvUnlink paths : unlinked (map EvUnlink paths) = paths.
Proof. induction paths; simpl; congruence. Qed.

Lemma same_store_refl w : same_store w w.
Proof. repeat split; reflexivity. Qed.

Lemma same_store_trans w1 w2 w3 :
  same_store w1 w2 -> same_store w2 w3 -> same_store w1 w3.
Proof. intros (A & B & C) (A' & B' & C'); repeat split; congruence. Qed.

Lemma same_store_logged ev w :
  (forall p, ev <> EvUnlink p) -> same_store w (logged ev w).
Proof.
  intros Hev; repeat split; simpl. rewrite unlinked_app; simpl.
  destruct ev; try apply app_nil_r. destruct (Hev path); reflexivity.
Qed.

Ltac frame_solve :=
  repeat split; simpl; rewrite ?unlinked_app; simpl; rewrite ?app_nil_r;
  reflexivity.

Lemma fault_eq oracle w :
  fault oracle w =
  match oracle (trace w) with Some e => (w, inl e) | None => (w, inr tt) end.
Proof. unfold fault, bind, get_trace. destruct (oracle (trace w)); reflexivity. Qed.

(** [cleanupTempFiles] never throws: it unlinks every path it is given, in
    order, whatever each [unlink] answers. *)
Lemma cleanupTempFiles_spec paths : forall w,
  cleanupTempFiles E paths w =
  ({| db := db w; trace := trace w ++ map EvUnlink paths; writes := writes w |},
   inr tt).
Proof.
  induction paths as [|p rest IH]; intros w; simpl.
  - unfold ret. rewrite app_nil_r. destruct w; reflexivity.
  - unfold bind, try_catch, log. rewrite fault_eq.
    destruct (unlink_fault E (trace (logged (EvUnlink p) w))); unfold ret;
      rewrite IH; simpl; rewrite <- app_assoc; reflexivity.
Qed.

Lemma downloadToTemp_returns url w w1 vp :
  downloadToTemp E url w = (w1, inr vp) ->
  vp = path_join (os_tmpdir E) (video_temp_name (Date_now E (trace w))).
Proof.
  unfold downloadToTemp, bind, log, get_trace; simpl.
  destruct (fetch_outcome E _) as [e|resp]; [discriminate|].
  destruct (ok resp); simpl; [|discriminate].
  destruct (arrayBuffer_fault resp); [discriminate|].
  rewrite fault_eq. destruct (writeFile_fault E _); [discriminate|].
  unfold ret. intros H; injection H; auto.
Qed.

Lemma extractAndCompressAudio_returns vp w w1 ap :
  extractAndCompressAudio E vp w = (w1, inr ap) ->
  ap = path_join (os_tmpdir E) (audio_temp_name (Date_now E (trace w))).
Proof.
  unfold extractAndCompressAudio, bind, try_catch, log; simpl.
  rewrite fault_eq. destruct (exec_fault E _); [discriminate|].
  unfold ret. intros H; injection H; auto.
Qed.

Lemma downloadToTemp_frame url w : same_store w (fst (downloadToTemp E url w)).
Proof.
  unfold downloadToTemp, bind, log, get_trace; simpl.
  destruct (fetch_outcome E _) as [e|resp]; [frame_solve|].
  destruct (ok resp); simpl; [|frame_solve].
  destruct (arrayBuffer_fault resp); [frame_solve|].
  rewrite fault_eq. destruct (writeFile_fault E _); frame_solve.
Qed.

Lemma extractAndCompressAudio_frame vp w :
  same_store w (fst (extractAndCompressAudio E vp w)).
Proof.
  unfold extractAndCompressAudio, bind, try_catch, log; simpl.
  rewrite fault_eq. destruct (exec_fault E _); frame_solve.
Qed.

Lemma transcribeAudio_frame ap w : same_store w (fst (transcribeAudio E ap w)).
Proof.
  unfold transcribeAudio, bind, try_catch, log, get_trace; simpl.
  rewrite fault_eq. destruct (readFile_fault E _); simpl; [frame_solve|].
  destruct (whisper_outcome E _); frame_solve.
Qed.

(** A joined temp path is never the empty string, so [filter(Boolean)] keeps
    it and the guard of the [finally] block sees it. *)
Lemma path_join_truthy dir name : string_truthy (path_join dir name) = true.
Proof. unfold path_join. destruct dir; reflexivity. Qed.

(** The video path and the audio path of one run never coincide. *)
Lemma video_audio_paths_differ dir t1 t2 :
  path_join dir (video_temp_name t1) <> path_join dir (audio_temp_name t2).
Proof.
  unfold path_join. induction dir as [|c dir IH]; simpl.
  - unfold video_temp_name, audio_temp_name. simpl. discriminate.
  - intros H. injection H. exact IH.
Qed.

Lemma length_append s t :
  String.length (s +:+ t) = String.length s + String.length t.
Proof. induction s as [|c s IH]; simpl; [reflexivity|]. rewrite IH. reflexivity. Qed.

Lemma append_cancel_r t : forall s1 s2, s1 +:+ t = s2 +:+ t -> s1 = s2.
Proof.
  induction s1 as [|c s1 IH]; intros [|c' s2] H; simpl in H.
  - reflexivity.
  - apply (f_equal String.length) in H. simpl in H.
    rewrite !length_append in H. simpl in H. lia.
  - apply (f_equal String.length) in H. simpl in H.
    rewrite !length_append in H. simpl in H. lia.
  - injection H as -> H. f_equal. apply IH, H.
Qed.

(** Two video paths (or two audio paths) in one directory coincide exactly
    when the two readings of the clock do. *)
Lemma video_paths_collide_iff dir t1 t2 :
  path_join dir (video_temp_name t1) = path_join dir (video_temp_name t2)
  <-> t1 = t2.
Proof.
  split; [|intros ->; reflexivity].
  unfold path_join, video_temp_name. intros H.
  apply (inj (String.app dir)) in H. simpl in H. injection H as H.
  change (pretty t1 +:+ ".mp4" = pretty t2 +:+ ".mp4") in H ||
  change (pretty t1 +:+ ".mp3" = pretty t2 +:+ ".mp3") in H.
  apply append_cancel_r in H. apply (inj pretty) in H. exact H.
Qed.

Lemma audio_paths_collide_iff dir t1 t2 :
  path_join dir (audio_temp_name t1) = path_join dir (audio_temp_name t2)
  <-> t1 = t2.
Proof.
  split; [|intros ->; reflexivity].
  unfold path_join, audio_temp_name. intros H.
  apply (inj (String.app dir)) in H. simpl in H. injection H as H.
  change (pretty t1 +:+ ".mp4" = pretty t2 +:+ ".mp4") in H ||
  change (pretty t1 +:+ ".mp3" = pretty t2 +:+ ".mp3") in H.
  apply append_cancel_r in H. apply (inj pretty) in H. exact H.
Qed.

(** The [finally] block, for the three states the locals can be in. *)
Lemma finally_nothing w :
  transcribeVideo_finally E (mkLocals None None) w = (w, inr tt).
Proof. reflexivity. Qed.

Lemma finally_video vp w :
  string_truthy vp = true ->
  transcribeVideo_finally E (mkLocals (Some vp) None) w = (cleaned [vp] w, inr tt).
Proof.
  intros Hvp. unfold transcribeVideo_finally.
  cbn [videoPath audioPath opt_truthy filter_Boolean]. rewrite Hvp.
  cbn [orb]. apply cleanupTempFiles_spec.
Qed.

Lemma finally_both vp ap w :
  string_truthy vp = true -> string_truthy ap = true ->
  transcribeVideo_finally E (mkLocals (Some vp) (Some ap)) w
  = (cleaned [vp; ap] w, inr tt).
Proof.
  intros Hvp Hap. unfold transcribeVideo_finally.
  cbn [videoPath audioPath opt_truthy filter_Boolean]. rewrite Hvp, Hap.
  cbn [orb]. apply cleanupTempFiles_spec.
Qed.


(** The three ways through [transcribeVideo], with the world each leaves. *)
Lemma transcribeVideo_cases url w :
  match downloadToTemp E url w with
  | (w1, inl e) => transcribeVideo E url w = (w1, inl e)
  | (w1, inr vp) =>
      match extractAndCompressAudio E vp w1 with
      | (w2, inl e) => transcribeVideo E url w = (cleaned [vp] w2, inl e)
      | (w2, inr ap) =>
          match transcribeAudio E ap w2 with
          | (w3, r) => transcribeVideo E url w = (cleaned [vp; ap] w3, r)
          end
      end
  end.
Proof.
  unfold transcribeVideo, transcribeVideo_try.
  destruct (downloadToTemp E url w) as [w1 [e|vp]] eqn:Hd.
  - rewrite finally_nothing. reflexivity.
  - pose proof (downloadToTemp_returns _ _ _ _ Hd) as Hvp.
    assert (Tvp : string_truthy vp = true) by (subst vp; apply path_join_truthy).
    destruct (extractAndCompressAudio E vp w1) as [w2 [e|ap]] eqn:He.
    + rewrite finally_video by exact Tvp. reflexivity.
    + pose proof (extractAndCompressAudio_returns _ _ _ _ He) as Hap.
      assert (Tap : string_truthy ap = true) by (subst ap; apply path_join_truthy).
      destruct (transcribeAudio E ap w2) as [w3 r].
      rewrite finally_both by assumption. reflexivity.
Qed.


(** The frame of the whole pipeline: the record store is not touched. *)
Lemma transcribeVideo_frame url w :
  db (fst (transcribeVideo E url w)) = db w
  /\ writes (fst (transcribeVideo E url w)) = writes w.
Proof.
  pose proof (transcribeVideo_cases url w) as H.
  pose proof (downloadToTemp_frame url w) as F1.
  destruct (downloadToTemp E url w) as [w1 [e|vp]]; simpl in F1.
  - rewrite H. simpl. split; apply F1.
  - pose proof (extractAndCompressAudio_frame vp w1) as F2.
    destruct (extractAndCompressAudio E vp w1) as [w2 [e|ap]]; simpl in F2.
    + rewrite H. simpl.
      destruct F1 as (A & B & _), F2 as (C & D & _). split; congruence.
    + pose proof (transcribeAudio_frame ap w2) as F3.
      destruct (transcribeAudio E ap w2) as [w3 r]; simpl in F3.
      rewrite H. simpl.
      destruct F1 as (A & B & _), F2 as (C & D & _), F3 as (C' & D' & _).
      split; congruence.
Qed.

(** A result of the pipeline is what the speech service answered. *)
Lemma transcribeAudio_result ap w w' result :
  transcribeAudio E ap w = (w', inr result) ->
  exists tr, whisper_outcome E tr = inr result.
Proof.
  unfold transcribeAudio, bind, try_catch, log, get_trace; simpl.
  rewrite fault_eq. destruct (readFile_fault E _); simpl; [discriminate|].
  destruct (whisper_outcome E _) as [e|t] eqn:Hw; simpl; [discriminate|].
  unfold ret. intros H; injection H as _ <-. eexists. rewrite Hw.
  destruct t; reflexivity.
Qed.

Lemma transcribeVideo_result url w w' result :
  transcribeVideo E url w = (w', inr result) ->
  exists tr, whisper_outcome E tr = inr result.
Proof.
  pose proof (transcribeVideo_cases url w) as H.
  destruct (downloadToTemp E url w) as [w1 [e|vp]].
  - rewrite H. discriminate.
  - destruct (extractAndCompressAudio E vp w1) as [w2 [e|ap]].
    + rewrite H. discriminate.
    + destruct (transcribeAudio E ap w2) as [w3 r] eqn:Ht.
      rewrite H. intros H'; injection H' as _ ->.
      exact (transcribeAudio_result _ _ _ _ Ht).
Qed.

End PipelineFacts.


(** Scenario B at the level of the pipeline: the extraction throws, the
    error of the extraction comes out, and the temp video file is the one
    file unlinked. *)
Example extraction_failure_unlinks_the_video :
  let run := transcribeVideo extraction_fails "http://minio:9002/videos/k.mp4"
                             (world_with fresh_video) in
  snd run = inl (JsError "Failed to extract audio from video")
  /\ unlinked (trace (fst run)) = ["/tmp/video_1700000000000.mp4"].
Proof. cbv zeta. split; vm_compute; reflexivity. Qed.

(** * Properties of the handler *)

Section HandlerFacts.

Variable E : Collaborators.

Lemma pipeline_calls_logged ev w :
  is_pipeline_event ev = false -> pipeline_calls (logged ev w) = pipeline_calls w.
Proof.
  intros Hev. unfold pipeline_calls. simpl. rewrite filter_app.
  rewrite filter_cons_False by (rewrite Hev; auto). apply app_nil_r.
Qed.

Lemma findUnique_eq where_id w :
  findUnique E where_id w =
  let w1 := logged (EvFindUnique where_id) w in
  match db_fault E (trace w1) with
  | Some e => (w1, inl e)
  | None =>
      match where_id with
      | JStr key => (w1, inr (db w !! key))
      | _ => (w1, inl (validation_error "findUnique"))
      end
  end.
Proof.
  unfold findUnique, bind, log. rewrite fault_eq. cbv zeta.
  destruct (db_fault E _); [reflexivity|]. destruct where_id; reflexivity.
Qed.

Lemma update_throws where_id data w e :
  db_fault E (trace w ++ [EvUpdate where_id data]) = Some e ->
  update E where_id data w = (logged (EvUpdate where_id data) w, inl e).
Proof.
  intros H. unfold update, bind, log. rewrite fault_eq. simpl. rewrite H.
  reflexivity.
Qed.

Lemma update_ok key data v w :
  db_fault E (trace w ++ [EvUpdate (JStr key) data]) = None ->
  db w !! key = Some v ->
  update E (JStr key) data w = (committed key data v w, inr (apply_update v data)).
Proof.
  intros H Hv. unfold update, bind, log. rewrite fault_eq. simpl. rewrite H.
  unfold commit. simpl. rewrite Hv. reflexivity.
Qed.

(** [update] either throws and leaves the store as it was, or commits. *)
Lemma update_cases where_id data w :
  (exists e, update E where_id data w = (logged (EvUpdate where_id data) w, inl e))
  \/ (exists key v, where_id = JStr key /\ db w !! key = Some v
       /\ update E where_id data w
          = (committed key data v w, inr (apply_update v data))).
Proof.
  destruct (db_fault E (trace w ++ [EvUpdate where_id data])) as [e|] eqn:Hf.
  - left. exists e. apply update_throws, Hf.
  - destruct where_id;
      try (left; eexists; unfold update, bind, log; rewrite fault_eq; simpl;
           rewrite Hf; reflexivity).
    destruct (db w !! s) as [v|] eqn:Hv.
    + right. exists s, v. split; [reflexivity|]. split; [exact Hv|].
      apply update_ok; assumption.
    + left. eexists. unfold update, bind, log. rewrite fault_eq. simpl.
      rewrite Hf. unfold commit. simpl. rewrite Hv. reflexivity.
Qed.

(** The [catch] block of the inner [try], entered in a world [w2] whose
    store is the one the pipeline started with. *)
Lemma failed_branch_cases key v1 error w2 w' r :
  db w2 !! key = Some v1 ->
  (update E (JStr key) failed_data ;;;
   ret (NextResponse_json (error_body (error_message error)) (Some 500%Z))) w2
  = (w', r) ->
  (exists e, r = inl e /\ db w' = db w2 /\ writes w' = writes w2)
  \/ (r = inr (NextResponse_json (error_body (error_message error)) (Some 500%Z))
      /\ w' = committed key failed_data v1 w2).
Proof.
  intros Hv. unfold bind.
  destruct (update_cases (JStr key) failed_data w2)
    as [[e He]|(k & v & Hk & Hkv & Hu)]; rewrite ?He, ?Hu; simpl;
    intros H; injection H as <- <-.
  - left. exists e. auto.
  - right. injection Hk as <-. rewrite Hv in Hkv. injection Hkv as <-.
    split; reflexivity.
Qed.

Lemma run_and_save_cases env key v v1 w1 w' r :
  db w1 !! key = Some v1 ->
  run_and_save E env (JStr key) v w1 = (w', r) ->
  (exists e, r = inl e /\ db w' = db w1 /\ writes w' = writes w1)
  \/ (exists resp, r = inr resp /\ status resp = 500%Z
       /\ db w' = <[key := apply_update v1 failed_data]> (db w1)
       /\ writes w'
          = writes w1 ++ [mkWrite key failed_data v1 (apply_update v1 failed_data)])
  \/ (exists w2 result,
       let v2 := apply_update v1 (completed_data result v) in
       transcribeVideo E (videoUrl_of env v) w1 = (w2, inr result)
       /\ r = inr (success_response v2)
       /\ db w' = <[key := v2]> (db w1)
       /\ writes w'
          = writes w1 ++ [mkWrite key (completed_data result v) v1 v2]).
Proof.
  intros Hv1. unfold run_and_save, try_catch. unfold bind at 1.
  destruct (transcribeVideo_frame E (videoUrl_of env v) w1) as [Fd Fw].
  destruct (transcribeVideo E (videoUrl_of env v) w1) as [w2 [e|result]];
    simpl in Fd, Fw.
  - assert (Hv2 : db w2 !! key = Some v1) by (rewrite Fd; exact Hv1).
    intros H.
    destruct (failed_branch_cases key v1 e w2 _ _ Hv2 H) as [(e' & R & D & W)|[R W]].
    + left. exists e'. rewrite D, W. auto.
    + right; left. eexists. rewrite W. simpl. rewrite Fd, Fw. split; [exact R|auto].
  - assert (Hv2 : db w2 !! key = Some v1) by (rewrite Fd; exact Hv1).
    unfold bind at 1.
    destruct (update_cases (JStr key) (completed_data result v) w2)
      as [[e He]|(k & v' & Hk & Hkv & Hu)]; rewrite ?He, ?Hu.
    + intros H.
      assert (Hv3 : db (logged (EvUpdate (JStr key) (completed_data result v)) w2)
                    !! key = Some v1) by exact Hv2.
      destruct (failed_branch_cases key v1 e _ _ _ Hv3 H)
        as [(e' & R & D & W)|[R W]].
      * left. exists e'. rewrite D, W. simpl. auto.
      * right; left. eexists. rewrite W. simpl. rewrite Fd, Fw.
        split; [exact R|auto].
    + injection Hk as <-. rewrite Hv2 in Hkv. injection Hkv as <-.
      unfold ret. intros H; injection H as <- <-.
      right; right. exists w2, result. simpl. rewrite Fd, Fw. auto.
Qed.

(** Every invocation of the handler answers, and falls in one of the five
    shapes of [Run]. *)
Lemma POST_cases env request w :
  exists w' resp,
    POST E env request w = (w', inr resp) /\ Run E env request w w' resp.
Proof.
  unfold POST, try_catch. unfold bind at 1.
  destruct (destructure_videoId request) as [e|videoId] eqn:Hid; simpl.
  { do 2 eexists. split; [reflexivity|]. apply run_rejected; auto. }
  destruct (truthy videoId); simpl.
  2:{ do 2 eexists. split; [reflexivity|]. apply run_rejected; auto. }
  destruct (credential_configured env); simpl.
  2:{ do 2 eexists. split; [reflexivity|]. apply run_rejected; auto. }
  unfold bind at 1. rewrite findUnique_eq. cbv zeta.
  destruct (db_fault E _) as [e|].
  { do 2 eexists. split; [reflexivity|].
    apply run_rejected; auto using pipeline_calls_logged. }
  destruct videoId as [| | | |key| |];
    try (do 2 eexists; split; [reflexivity|];
         apply run_rejected; auto using pipeline_calls_logged; fail).
  destruct (db w !! key) as [v|] eqn:Hv.
  2:{ do 2 eexists. split; [reflexivity|].
      apply run_rejected; auto using pipeline_calls_logged. }
  destruct (already_transcribed v) eqn:Hc.
  { do 2 eexists. split; [reflexivity|].
    eapply run_cached; eauto using pipeline_calls_logged. }
  unfold bind at 1.
  set (w0 := logged (EvFindUnique (JStr key)) w).
  destruct (update_cases (JStr key) processing_data w0)
    as [[e He]|(k & v' & Hk & Hkv & Hu)]; rewrite ?He, ?Hu.
  { do 2 eexists. split; [reflexivity|]. apply run_rejected; auto.
    subst w0. rewrite !pipeline_calls_logged; reflexivity. }
  injection Hk as <-. change (db w0) with (db w) in Hkv.
  rewrite Hv in Hkv. injection Hkv as <-.
  set (v1 := apply_update v processing_data).
  assert (Hv1 : db (committed key processing_data v w0) !! key = Some v1)
    by (simpl; apply lookup_insert_eq).
  destruct (run_and_save E env (JStr key) v (committed key processing_data v w0))
    as [w' r] eqn:Hrun.
  destruct (run_and_save_cases env key v v1 _ _ _ Hv1 Hrun)
    as [(e & -> & D & W)|[(resp & -> & S & D & W)|(w2 & result & T & -> & D & W)]].
  - do 2 eexists. split; [reflexivity|]. eapply run_stuck; eauto.
  - do 2 eexists. split; [reflexivity|].
    simpl in W. rewrite <- app_assoc in W.
    exact (run_failed E env request w w' key v resp Hid Hv Hc D W S).
  - do 2 eexists. split; [reflexivity|].
    simpl in W. rewrite <- app_assoc in W.
    exact (run_completed E env request w w' key v w2 result Hid Hv Hc T D W).
Qed.

(** ** The paths through the handler, as equations *)

Section Reached.

Variables (env : gmap string string) (request : NextRequest) (key : string)
          (v : Video) (w : World).
Hypothesis Hid : destructure_videoId request = inr (JStr key).
Hypothesis Hkey : string_truthy key = true.
Hypothesis Hcred : credential_configured env = true.
Hypothesis Hfind : db_fault E (trace w ++ [EvFindUnique (JStr key)]) = None.
Hypothesis Hrow : db w !! key = Some v.

Lemma POST_cached :
  already_transcribed v = true ->
  POST E env request w
  = (logged (EvFindUnique (JStr key)) w, inr (cached_response v)).
Proof.
  intros Hc. unfold POST, try_catch. unfold bind at 1. rewrite Hid. simpl.
  rewrite Hkey, Hcred. simpl. unfold bind at 1. rewrite findUnique_eq. cbv zeta.
  simpl trace. rewrite Hfind, Hrow, Hc. reflexivity.
Qed.

Lemma POST_runs :
  already_transcribed v = false ->
  db_fault E (trace w ++ [EvFindUnique (JStr key);
                          EvUpdate (JStr key) processing_data]) = None ->
  POST E env request w
  = match run_and_save E env (JStr key) v (marked_processing key v w) with
    | (w', inl _) =>
        (w', inr (NextResponse_json (error_body "Internal server error")
                                    (Some 500%Z)))
    | (w', inr resp) => (w', inr resp)
    end.
Proof.
  intros Hc Hupd. unfold POST, try_catch. unfold bind at 1. rewrite Hid. simpl.
  rewrite Hkey, Hcred. simpl. unfold bind at 1. rewrite findUnique_eq. cbv zeta.
  simpl trace. rewrite Hfind, Hrow, Hc. unfold bind at 1.
  rewrite (update_ok key processing_data v).
  - reflexivity.
  - simpl. rewrite <- app_assoc. exact Hupd.
  - exact Hrow.
Qed.

End Reached.

(** The inner [try]/[catch], by what the pipeline and the store answer. *)
Lemma run_and_save_pipeline_throws env key v v1 w1 w2 e :
  db w1 !! key = Some v1 ->
  transcribeVideo E (videoUrl_of env v) w1 = (w2, inl e) ->
  run_and_save E env (JStr key) v w1
  = match db_fault E (trace w2 ++ [EvUpdate (JStr key) failed_data]) with
    | None =>
        (committed key failed_data v1 w2,
         inr (NextResponse_json (error_body (error_message e)) (Some 500%Z)))
    | Some e' => (logged (EvUpdate (JStr key) failed_data) w2, inl e')
    end.
Proof.
  intros Hv1 Ht. unfold run_and_save, try_catch. unfold bind at 1. rewrite Ht.
  destruct (transcribeVideo_frame E (videoUrl_of env v) w1) as [Fd _].
  rewrite Ht in Fd; simpl in Fd. unfold bind.
  destruct (db_fault E _) as [e'|] eqn:Hf.
  - rewrite (update_throws _ _ _ _ Hf). reflexivity.
  - rewrite (update_ok key failed_data v1 w2 Hf) by (rewrite Fd; exact Hv1).
    reflexivity.
Qed.

Lemma run_and_save_succeeds env key v v1 w1 w2 result :
  db w1 !! key = Some v1 ->
  transcribeVideo E (videoUrl_of env v) w1 = (w2, inr result) ->
  db_fault E (trace w2 ++ [EvUpdate (JStr key) (completed_data result v)]) = None ->
  run_and_save E env (JStr key) v w1
  = (committed key (completed_data result v) v1 w2,
     inr (success_response (apply_update v1 (completed_data result v)))).
Proof.
  intros Hv1 Ht Hf. unfold run_and_save, try_catch. unfold bind at 1. rewrite Ht.
  destruct (transcribeVideo_frame E (videoUrl_of env v) w1) as [Fd _].
  rewrite Ht in Fd; simpl in Fd. unfold bind.
  rewrite (update_ok key _ v1 w2 Hf) by (rewrite Fd; exact Hv1).
  reflexivity.
Qed.

Lemma lookup_marked_processing key v w :
  db (marked_processing key v w) !! key = Some (apply_update v processing_data).
Proof. simpl. apply lookup_insert_eq. Qed.

End HandlerFacts.

(** ** The cached path *)

(** C1, as the code has it.  For a stored row whose status is COMPLETED and
    whose transcription is a non-empty string (line 37 tests the string for
    truthiness, so the empty string does not count), a request for that row
    (credential configured, lookup answered) is answered 200 with the stored
    text and [cached: true]; the only call made to any collaborator is the
    lookup, so there is no record-store write and the fetcher, the extractor
    and the transcription client are never invoked. *)
Theorem completed_row_is_served_from_cache E env request key v t w :
  destructure_videoId request = inr (JStr key) ->
  string_truthy key = true ->
  credential_configured env = true ->
  db_fault E (trace w ++ [EvFindUnique (JStr key)]) = None ->
  db w !! key = Some v ->
  transcriptionStatus v = COMPLETED ->
  transcription v = Some t ->
  t <> EmptyString ->
  exists w',
    POST E env request w
    = (w', inr {| status := 200;
                  body := JObj [("success", JBool true);
                                ("transcription", JStr t);
                                ("status", JStr "COMPLETED");
                                ("cached", JBool true)] |})
    /\ db w' = db w
    /\ writes w' = writes w
    /\ trace w' = trace w ++ [EvFindUnique (JStr key)].
Proof.
  intros Hid Hkey Hcred Hfind Hrow Hst Ht Hne.
  exists (logged (EvFindUnique (JStr key)) w).
  rewrite (POST_cached E env request key v w Hid Hkey Hcred Hfind Hrow).
  - unfold cached_response, NextResponse_json. rewrite Ht. simpl. auto.
  - unfold already_transcribed. rewrite Hst, Ht. simpl.
    destruct t; [contradiction|reflexivity].
Qed.

Lemma completed_row_is_served_from_cache_witness :
  exists w',
    POST (all_succeed (mkResult "unused" None)) env_with_key (request_for "v1")
         (world_with (completed_video "x"))
    = (w', inr {| status := 200;
                  body := JObj [("success", JBool true);
                                ("transcription", JStr "x");
                                ("status", JStr "COMPLETED");
                                ("cached", JBool true)] |})
    /\ db w' = db (world_with (completed_video "x"))
    /\ writes w' = writes (world_with (completed_video "x"))
    /\ trace w' = trace (world_with (completed_video "x"))
                  ++ [EvFindUnique (JStr "v1")].
Proof.
  apply (completed_row_is_served_from_cache
           (all_succeed (mkResult "unused" None)) env_with_key (request_for "v1")
           "v1" (completed_video "x") "x" (world_with (completed_video "x")));
    try reflexivity.
  discriminate.
Defined.

(** A row that is COMPLETED with a non-null but empty transcription is not
    served from the cache: the handler marks it PROCESSING and runs the whole
    pipeline again.  The handler itself produces such a row when the speech
    service returns an empty text. *)
Lemma completed_row_with_empty_text_is_rerun :
  let v := completed_video EmptyString in
  let run := POST (all_succeed (mkResult "again" None)) env_with_key
                  (request_for "v1") (world_with v) in
  transcriptionStatus v = COMPLETED
  /\ transcription v <> None
  /\ snd run <> inr (cached_response v)
  /\ map (fun wr => transcriptionStatus (w_after wr)) (writes (fst run))
     = [PROCESSING; COMPLETED]
  /\ filter is_pipeline_event (trace (fst run))
     = [EvFetch "http://minio:9002/videos/k.mp4";
        EvWriteFile "/tmp/video_1700000000000.mp4";
        EvExec (ffmpeg_command "/tmp/video_1700000000000.mp4"
                               "/tmp/audio_1700000000000.mp3");
        EvReadFile "/tmp/audio_1700000000000.mp3";
        EvWhisper "/tmp/audio_1700000000000.mp3";
        EvUnlink "/tmp/video_1700000000000.mp4";
        EvUnlink "/tmp/audio_1700000000000.mp3"].
Proof.
  cbv zeta. split; [reflexivity|]. split; [discriminate|].
  split; [vm_compute; discriminate|]. split; vm_compute; reflexivity.
Qed.

(** X18. The second call after a completed run: when the run stored a
    non-empty text, the same request is next answered from the cache with
    that text, and the only call made is the lookup. *)
Lemma second_call_is_served_from_cache E env request key v w w2 result :
  destructure_videoId request = inr (JStr key) ->
  string_truthy key = true ->
  credential_configured env = true ->
  db_fault E (trace w ++ [EvFindUnique (JStr key)]) = None ->
  db w !! key = Some v ->
  already_transcribed v = false ->
  db_fault E (trace w ++ [EvFindUnique (JStr key);
                          EvUpdate (JStr key) processing_data]) = None ->
  transcribeVideo E (videoUrl_of env v) (marked_processing key v w)
  = (w2, inr result) ->
  db_fault E (trace w2 ++ [EvUpdate (JStr key) (completed_data result v)]) = None ->
  text result <> EmptyString ->
  let w1 := fst (POST E env request w) in
  db_fault E (trace w1 ++ [EvFindUnique (JStr key)]) = None ->
  exists v',
    db w1 !! key = Some v'
    /\ transcription v' = Some (text result)
    /\ POST E env request w1
       = (logged (EvFindUnique (JStr key)) w1, inr (cached_response v')).
Proof.
  intros Hid Hkey Hcred Hfind Hrow Hc Hupd Ht Hsave Hne.
  rewrite (POST_runs E env request key v w Hid Hkey Hcred Hfind Hrow Hc Hupd).
  rewrite (run_and_save_succeeds E env key v _ _ w2 result
             (lookup_marked_processing key v w) Ht Hsave).
  cbv zeta. intros Hfind'. eexists. split; [simpl; apply lookup_insert_eq|].
  split; [reflexivity|].
  apply (POST_cached E env request key); auto.
  - simpl. apply lookup_insert_eq.
  - unfold already_transcribed. simpl. destruct (text result); [contradiction|].
    reflexivity.
Qed.

(** ** The credential check *)

(** C9. With a truthy [videoId] and no credential configured (the variable
    unset or empty), the handler answers 500 with the credential-specific
    message and leaves the world exactly as it was: no record-store call is
    logged, no row is changed. *)
Theorem missing_credential_is_reported_before_the_store E env request videoId w :
  destructure_videoId request = inr videoId ->
  truthy videoId = true ->
  credential_configured env = false ->
  POST E env request w
  = (w, inr {| status := 500;
               body := JObj [("error", JStr "OpenAI API key not configured")] |}).
Proof.
  intros Hid Htr Hcred. unfold POST, try_catch. unfold bind at 1.
  rewrite Hid. simpl. rewrite Htr, Hcred. reflexivity.
Qed.

Lemma missing_credential_is_reported_before_the_store_witness :
  POST extraction_fails ∅ (request_for "v1") (world_with fresh_video)
  = (world_with fresh_video,
     inr {| status := 500;
            body := JObj [("error", JStr "OpenAI API key not configured")] |}).
Proof.
  apply (missing_credential_is_reported_before_the_store
           extraction_fails ∅ (request_for "v1") (JStr "v1")
           (world_with fresh_video)); reflexivity.
Defined.

(** ** Totality *)

Lemma Run_status E env request w w' resp :
  Run E env request w w' resp -> In (status resp) [200; 400; 404; 500]%Z.
Proof.
  intros H; destruct H as [w' resp _ _ _ [S|[S|S]]| | ? ? ? ? _ _ _ _ _ S
                          | ? ? ? ? ? _ _ _ _ _ S| ];
    try rewrite S; simpl; auto.
Qed.

(** C10. Whatever the request body is and whatever the collaborators answer
    or throw, the handler returns a response (it never throws), and the
    response status is 200, 400, 404 or 500.  When [request.json()] throws or
    the body cannot be destructured the answer is 500; when [videoId] is
    falsy (absent, null, empty string, ...) the answer is the 400 response,
    whether or not a credential is configured, and the world is untouched,
    so the record store was not accessed. *)
Theorem POST_always_answers E env request w :
  exists w' resp,
    POST E env request w = (w', inr resp)
    /\ In (status resp) [200; 400; 404; 500]%Z
    /\ match destructure_videoId request with
       | inl _ =>
           w' = w
           /\ resp = {| status := 500;
                        body := JObj [("error", JStr "Internal server error")] |}
       | inr videoId =>
           if truthy videoId then True
           else w' = w
                /\ resp = {| status := 400;
                             body := JObj [("error", JStr "Video ID is required")] |}
       end.
Proof.
  destruct (POST_cases E env request w) as (w' & resp & Heq & Hrun).
  exists w', resp. split; [exact Heq|]. split; [exact (Run_status _ _ _ _ _ _ Hrun)|].
  revert Heq. unfold POST, try_catch. unfold bind at 1.
  destruct (destructure_videoId request) as [e|videoId]; simpl.
  - intros H; injection H as <- <-. split; reflexivity.
  - destruct (truthy videoId); simpl; [trivial|].
    intros H; injection H as <- <-. split; reflexivity.
Qed.

(** ** The failure path *)

(** C2, as the code has it.  When the pipeline throws [e], what follows
    depends on the record store alone.  If it accepts the write of FAILED,
    the handler persists FAILED for the row and answers 500 with [e]'s
    message if [e] is an [Error], with the generic message otherwise; the
    row is not left PROCESSING.  If the write of FAILED itself throws, the
    handler answers 500 "Internal server error" and the row stays
    PROCESSING: the mark is the last write committed. *)
Theorem pipeline_failure_is_persisted_then_reported
        E env request key v w w2 e :
  destructure_videoId request = inr (JStr key) ->
  string_truthy key = true ->
  credential_configured env = true ->
  db_fault E (trace w ++ [EvFindUnique (JStr key)]) = None ->
  db w !! key = Some v ->
  already_transcribed v = false ->
  db_fault E (trace w ++ [EvFindUnique (JStr key);
                          EvUpdate (JStr key) processing_data]) = None ->
  transcribeVideo E (videoUrl_of env v) (marked_processing key v w) = (w2, inl e) ->
  match db_fault E (trace w2 ++ [EvUpdate (JStr key) failed_data]) with
  | None =>
      exists w',
        POST E env request w
        = (w', inr {| status := 500;
                      body := JObj [("error",
                                     JStr match e with
                                          | JsError message => message
                                          | JsNonError _ => "Transcription failed"
                                          end)] |})
        /\ transcriptionStatus <$> (db w' !! key) = Some FAILED
        /\ last (writes w')
           = Some (mkWrite key failed_data (apply_update v processing_data)
                     (apply_update (apply_update v processing_data) failed_data))
  | Some _ =>
      exists w',
        POST E env request w
        = (w', inr {| status := 500;
                      body := JObj [("error", JStr "Internal server error")] |})
        /\ transcriptionStatus <$> (db w' !! key) = Some PROCESSING
        /\ last (writes w')
           = Some (mkWrite key processing_data v (apply_update v processing_data))
  end.
Proof.
  intros Hid Hkey Hcred Hfind Hrow Hc Hupd Ht.
  rewrite (POST_runs E env request key v w Hid Hkey Hcred Hfind Hrow Hc Hupd).
  rewrite (run_and_save_pipeline_throws E env key v _ _ w2 e
             (lookup_marked_processing key v w) Ht).
  destruct (transcribeVideo_frame E (videoUrl_of env v) (marked_processing key v w))
    as [Fd Fw].
  rewrite Ht in Fd, Fw; simpl fst in Fd, Fw.
  destruct (db_fault E (trace w2 ++ [EvUpdate (JStr key) failed_data])) as [e'|].
  - eexists. split; [reflexivity|]. split.
    + change (db (logged (EvUpdate (JStr key) failed_data) w2)) with (db w2).
      rewrite Fd, lookup_marked_processing. reflexivity.
    + change (writes (logged (EvUpdate (JStr key) failed_data) w2))
        with (writes w2).
      rewrite Fw. simpl. apply last_snoc.
  - eexists. split; [reflexivity|]. split.
    + simpl. rewrite lookup_insert_eq. reflexivity.
    + simpl. rewrite last_snoc. reflexivity.
Qed.

(** Scenario B (the extraction throws), with a record store that accepts the
    write of FAILED and with one that refuses it. *)
Lemma pipeline_failure_is_persisted_then_reported_witness :
  (exists w',
     POST extraction_fails env_with_key (request_for "v1") (world_with fresh_video)
     = (w', inr {| status := 500;
                   body := JObj [("error",
                                  JStr "Failed to extract audio from video")] |})
     /\ transcriptionStatus <$> (db w' !! "v1") = Some FAILED
     /\ last (writes w')
        = Some (mkWrite "v1" failed_data (apply_update fresh_video processing_data)
                  (apply_update (apply_update fresh_video processing_data)
                                failed_data)))
  /\ (exists w',
        POST extraction_and_store_fail env_with_key (request_for "v1")
             (world_with fresh_video)
        = (w', inr {| status := 500;
                      body := JObj [("error", JStr "Internal server error")] |})
        /\ transcriptionStatus <$> (db w' !! "v1") = Some PROCESSING
        /\ last (writes w')
           = Some (mkWrite "v1" processing_data fresh_video
                     (apply_update fresh_video processing_data))).
Proof.
  split.
  - refine (pipeline_failure_is_persisted_then_reported
              extraction_fails env_with_key (request_for "v1") "v1" fresh_video
              (world_with fresh_video)
              (fst (transcribeVideo extraction_fails
                      (videoUrl_of env_with_key fresh_video)
                      (marked_processing "v1" fresh_video (world_with fresh_video))))
              (JsError "Failed to extract audio from video")
              _ _ _ _ _ _ _ _); reflexivity.
  - refine (pipeline_failure_is_persisted_then_reported
              extraction_and_store_fail env_with_key (request_for "v1") "v1"
              fresh_video (world_with fresh_video)
              (fst (transcribeVideo extraction_and_store_fail
                      (videoUrl_of env_with_key fresh_video)
                      (marked_processing "v1" fresh_video (world_with fresh_video))))
              (JsError "Failed to extract audio from video")
              _ _ _ _ _ _ _ _); reflexivity.
Defined.

(** The pipeline throws and the record store then refuses the write of
    FAILED: the handler answers 500 with the generic "Internal server error"
    (not the thrown error's message) and the row stays PROCESSING. *)
Lemma failed_write_refused_leaves_processing :
  let E := extraction_and_store_fail in
  let w := world_with fresh_video in
  let run := POST E env_with_key (request_for "v1") w in
  snd (transcribeVideo E (videoUrl_of env_with_key fresh_video)
         (marked_processing "v1" fresh_video w))
  = inl (JsError "Failed to extract audio from video")
  /\ snd run = inr {| status := 500;
                      body := JObj [("error", JStr "Internal server error")] |}
  /\ transcriptionStatus <$> (db (fst run) !! "v1") = Some PROCESSING
  /\ map (fun wr => transcriptionStatus (w_after wr)) (writes (fst run))
     = [PROCESSING].
Proof. cbv zeta. repeat split; vm_compute; reflexivity. Qed.

(** ** The success path *)

(** [Math.round] returns the integer nearest to its argument (the upper one
    when two are equally near). *)
Lemma Math_round_nearest (q : Q) :
  exists z : Z,
    Math_round q = inject_Z z
    /\ (inject_Z z - (1 # 2) <= q)%Q /\ (q < inject_Z z + (1 # 2))%Q.
Proof.
  exists (Qfloor (q + (1 # 2))). split; [reflexivity|].
  pose proof (Qfloor_le (q + (1 # 2))) as Hle.
  pose proof (Qlt_floor (q + (1 # 2))) as Hlt.
  rewrite inject_Z_plus in Hlt. change (inject_Z 1) with 1%Q in Hlt.
  split; lra.
Qed.

(** C4, as the code has it.  On a successful run the row ends COMPLETED with
    the returned text, and its duration is: the prior value when the service
    returns no duration, and also when it returns 0 (line 67 tests the
    number for truthiness); the returned value rounded to the nearest
    integer when it returns a non-zero duration. *)
Theorem duration_policy E env request key v w w2 result :
  destructure_videoId request = inr (JStr key) ->
  string_truthy key = true ->
  credential_configured env = true ->
  db_fault E (trace w ++ [EvFindUnique (JStr key)]) = None ->
  db w !! key = Some v ->
  already_transcribed v = false ->
  db_fault E (trace w ++ [EvFindUnique (JStr key);
                          EvUpdate (JStr key) processing_data]) = None ->
  transcribeVideo E (videoUrl_of env v) (marked_processing key v w)
  = (w2, inr result) ->
  db_fault E (trace w2 ++ [EvUpdate (JStr key) (completed_data result v)]) = None ->
  exists w' v',
    POST E env request w = (w', inr (success_response v'))
    /\ db w' !! key = Some v'
    /\ transcriptionStatus v' = COMPLETED
    /\ transcription v' = Some (text result)
    /\ match result_duration result with
       | None => duration v' = duration v
       | Some d =>
           if (Qnum d =? 0)%Z
           then duration v' = duration v
           else exists z : Z,
                  duration v' = Some (inject_Z z)
                  /\ (inject_Z z - (1 # 2) <= d)%Q /\ (d < inject_Z z + (1 # 2))%Q
       end.
Proof.
  intros Hid Hkey Hcred Hfind Hrow Hc Hupd Ht Hsave.
  rewrite (POST_runs E env request key v w Hid Hkey Hcred Hfind Hrow Hc Hupd).
  rewrite (run_and_save_succeeds E env key v _ _ w2 result
             (lookup_marked_processing key v w) Ht Hsave).
  do 2 eexists. split; [reflexivity|]. split; [simpl; apply lookup_insert_eq|].
  split; [reflexivity|]. split; [reflexivity|].
  simpl. unfold new_duration, number_truthy.
  destruct (result_duration result) as [d|]; [|reflexivity].
  destruct (Qnum d =? 0)%Z; simpl; [reflexivity|].
  destruct (Math_round_nearest d) as (z & -> & Hz). exists z. auto.
Qed.

(** Scenario A: the service returns "hello world" and 12.4 seconds. *)
Lemma duration_policy_witness :
  exists w' v',
    POST (all_succeed (mkResult "hello world" (Some (124 # 10)))) env_with_key
         (request_for "v1") (world_with fresh_video)
    = (w', inr (success_response v'))
    /\ db w' !! "v1" = Some v'
    /\ transcriptionStatus v' = COMPLETED
    /\ transcription v' = Some "hello world"
    /\ exists z : Z,
         duration v' = Some (inject_Z z)
         /\ (inject_Z z - (1 # 2) <= 124 # 10)%Q
         /\ (124 # 10 < inject_Z z + (1 # 2))%Q.
Proof.
  eapply (duration_policy
            (all_succeed (mkResult "hello world" (Some (124 # 10)))) env_with_key
            (request_for "v1") "v1" fresh_video (world_with fresh_video)
            _ (mkResult "hello world" (Some (124 # 10))));
    reflexivity.
Defined.

(** The service returns a duration of 0 for a row whose stored duration is
    30: the run succeeds and the stored duration is still 30, not the
    returned value rounded. *)
Lemma zero_duration_keeps_prior_value :
  let result := mkResult "hello world" (Some (0 # 1)) in
  let run := POST (all_succeed result) env_with_key (request_for "v1")
                  (world_with fresh_video) in
  status <$> (match snd run with inr resp => Some resp | inl _ => None end)
  = Some 200%Z
  /\ transcriptionStatus <$> (db (fst run) !! "v1") = Some COMPLETED
  /\ duration <$> (db (fst run) !! "v1") = Some (Some (30 # 1))
  /\ duration <$> (db (fst run) !! "v1") <> Some (Some (Math_round (0 # 1))).
Proof.
  cbv zeta. repeat split; try (vm_compute; reflexivity).
  vm_compute. discriminate.
Qed.

(** ** The status state machine *)

Lemma first_transition_allowed key v :
  already_transcribed v = false ->
  allowed_transition
    (mkWrite key processing_data v (apply_update v processing_data)).
Proof.
  unfold already_transcribed, allowed_transition, transition. simpl. intros Hc.
  destruct (transcriptionStatus v); simpl in *; auto 10.
Qed.

Lemma second_transition_allowed key data v v' :
  transcriptionStatus v = PROCESSING ->
  transcriptionStatus v' = COMPLETED \/ transcriptionStatus v' = FAILED ->
  allowed_transition (mkWrite key data v v').
Proof.
  unfold allowed_transition, transition. simpl. intros -> [-> | ->]; simpl; auto 10.
Qed.

(** C5, as the code has it.  Every write committed by an invocation changes
    the status along NONE -> PROCESSING, FAILED -> PROCESSING, PROCESSING ->
    COMPLETED or PROCESSING -> FAILED, or re-marks a PROCESSING row
    PROCESSING, or takes a COMPLETED row whose transcription is null or empty
    back to PROCESSING.  A row that is COMPLETED with a non-empty
    transcription is absorbing: no invocation writes to it, it is the same
    row afterwards, and an invocation asking for it makes no pipeline
    call. *)
Theorem status_transitions E env request w :
  exists new,
    writes (fst (POST E env request w)) = writes w ++ new
    /\ Forall allowed_transition new
    /\ forall key v,
         db w !! key = Some v ->
         transcriptionStatus v = COMPLETED ->
         opt_truthy string_truthy (transcription v) = true ->
         db (fst (POST E env request w)) !! key = Some v
         /\ Forall (fun wr => w_id wr <> key) new
         /\ (destructure_videoId request = inr (JStr key) ->
             pipeline_calls (fst (POST E env request w)) = pipeline_calls w).
Proof.
  destruct (POST_cases E env request w) as (w' & resp & -> & Hrun). simpl.
  assert (Habs : forall key v key' v',
             db w !! key = Some v -> transcriptionStatus v = COMPLETED ->
             opt_truthy string_truthy (transcription v) = true ->
             db w !! key' = Some v' -> already_transcribed v' = false ->
             key' <> key).
  { intros key v key' v' Hv Hs Ht Hv' Hc' ->. rewrite Hv in Hv'.
    injection Hv' as <-. unfold already_transcribed in Hc'.
    rewrite Hs, Ht in Hc'. discriminate. }
  destruct Hrun as [w' resp D W P _
                   |w' key v Hid D W P Hv Hc
                   |w' key v resp Hid Hv Hc D W _
                   |w' key v resp v1 Hid Hv Hc D W _
                   |w' key v w2 result v1 v2 Hid Hv Hc _ D W].
  - exists []. rewrite app_nil_r. split; [exact W|]. split; [constructor|].
    intros k r Hr _ _. rewrite D. auto.
  - exists []. rewrite app_nil_r. split; [exact W|]. split; [constructor|].
    intros k r Hr _ _. rewrite D. auto.
  - eexists. split; [exact W|]. split.
    + constructor; [|constructor]. apply first_transition_allowed, Hc.
    + intros k r Hr Hs Ht. pose proof (Habs _ _ _ _ Hr Hs Ht Hv Hc) as Hne.
      rewrite D, lookup_insert_ne by exact Hne. split; [exact Hr|].
      split; [constructor; [exact Hne|constructor]|].
      intros Hid'. rewrite Hid in Hid'. injection Hid' as ->. contradiction.
  - eexists. split; [exact W|]. split.
    + constructor; [|constructor; [|constructor]].
      * apply first_transition_allowed, Hc.
      * apply second_transition_allowed; [reflexivity|right; reflexivity].
    + intros k r Hr Hs Ht. pose proof (Habs _ _ _ _ Hr Hs Ht Hv Hc) as Hne.
      rewrite D, !lookup_insert_ne by exact Hne. split; [exact Hr|].
      split; [constructor; [exact Hne|constructor; [exact Hne|constructor]]|].
      intros Hid'. rewrite Hid in Hid'. injection Hid' as ->. contradiction.
  - eexists. split; [exact W|]. split.
    + constructor; [|constructor; [|constructor]].
      * apply first_transition_allowed, Hc.
      * apply second_transition_allowed; [reflexivity|left; reflexivity].
    + intros k r Hr Hs Ht. pose proof (Habs _ _ _ _ Hr Hs Ht Hv Hc) as Hne.
      rewrite D, !lookup_insert_ne by exact Hne. split; [exact Hr|].
      split; [constructor; [exact Hne|constructor; [exact Hne|constructor]]|].
      intros Hid'. rewrite Hid in Hid'. injection Hid' as ->. contradiction.
Qed.

Lemma status_transitions_witness :
  let E := all_succeed (mkResult "unused" None) in
  let w := world_with (completed_video "x") in
  exists new,
    writes (fst (POST E env_with_key (request_for "v1") w)) = writes w ++ new
    /\ Forall allowed_transition new
    /\ db (fst (POST E env_with_key (request_for "v1") w)) !! "v1"
       = Some (completed_video "x")
    /\ Forall (fun wr => w_id wr <> "v1") new
    /\ pipeline_calls (fst (POST E env_with_key (request_for "v1") w))
       = pipeline_calls w.
Proof.
  intros E w.
  destruct (status_transitions E env_with_key (request_for "v1") w)
    as (new & Hw & Ht & Habs).
  exists new. split; [exact Hw|]. split; [exact Ht|].
  destruct (Habs "v1" (completed_video "x")) as (A & B & C);
    try reflexivity.
  split; [exact A|]. split; [exact B|]. apply C. reflexivity.
Defined.

(** A COMPLETED row whose transcription is the empty string is not
    absorbing: an invocation takes it from COMPLETED back to PROCESSING, a
    transition outside the four of the state machine, and runs the pipeline
    again. *)
Lemma completed_row_with_empty_text_is_not_absorbing :
  let v := completed_video EmptyString in
  let run := POST (all_succeed (mkResult "again" None)) env_with_key
                  (request_for "v1") (world_with v) in
  transcriptionStatus v = COMPLETED
  /\ map transition (writes (fst run))
     = [(COMPLETED, PROCESSING); (PROCESSING, COMPLETED)]
  /\ ~ In (COMPLETED, PROCESSING)
         [(NONE, PROCESSING); (FAILED, PROCESSING);
          (PROCESSING, COMPLETED); (PROCESSING, FAILED)]
  /\ length (pipeline_calls (fst run)) = 7.
Proof.
  cbv zeta. split; [reflexivity|]. split; [vm_compute; reflexivity|].
  split; [|vm_compute; reflexivity].
  simpl. intros [H|[H|[H|[H|[]]]]]; discriminate.
Qed.

(** ** The invariant of the data model *)

Lemma lookup_two_inserts (m : gmap string Video) key a b k r :
  <[key := b]> (<[key := a]> m) !! k = Some r ->
  (k = key /\ r = b) \/ (k <> key /\ m !! k = Some r).
Proof.
  destruct (decide (key = k)) as [->|Hne].
  - rewrite lookup_insert_eq. intros H; injection H as <-. auto.
  - rewrite !lookup_insert_ne by exact Hne. auto.
Qed.

Lemma lookup_one_insert (m : gmap string Video) key a k r :
  <[key := a]> m !! k = Some r ->
  (k = key /\ r = a) \/ (k <> key /\ m !! k = Some r).
Proof.
  destruct (decide (key = k)) as [->|Hne].
  - rewrite lookup_insert_eq. intros H; injection H as <-. auto.
  - rewrite !lookup_insert_ne by exact Hne. auto.
Qed.

(** C6. Every write committed by an invocation leaves its row with the
    invariant (COMPLETED implies a non-null transcription); a write whose
    data sets COMPLETED sets, in the same call, the transcription to the text
    the speech service answered; hence a store in which every row has the
    invariant is taken to a store in which every row has it. *)
Theorem writes_keep_completed_rows_with_text E env request w :
  exists new,
    writes (fst (POST E env request w)) = writes w ++ new
    /\ Forall (fun wr =>
         w_after wr = apply_update (w_before wr) (w_data wr)
         /\ completed_has_text (w_after wr)
         /\ (data_transcriptionStatus (w_data wr) = Some COMPLETED ->
             exists tr result,
               whisper_outcome E tr = inr result
               /\ data_transcription (w_data wr) = Some (Some (text result))))
         new
    /\ ((forall k r, db w !! k = Some r -> completed_has_text r) ->
        forall k r,
          db (fst (POST E env request w)) !! k = Some r -> completed_has_text r).
Proof.
  destruct (POST_cases E env request w) as (w' & resp & -> & Hrun). simpl.
  destruct Hrun as [w' resp D W P _
                   |w' key v Hid D W P Hv Hc
                   |w' key v resp Hid Hv Hc D W _
                   |w' key v resp v1 Hid Hv Hc D W _
                   |w' key v w2 result v1 v2 Hid Hv Hc T D W].
  - exists []. rewrite app_nil_r. split; [exact W|]. split; [constructor|].
    rewrite D. auto.
  - exists []. rewrite app_nil_r. split; [exact W|]. split; [constructor|].
    rewrite D. auto.
  - eexists. split; [exact W|]. split.
    + constructor; [|constructor]. simpl.
      split; [reflexivity|]. split; [intros H; discriminate H|].
      intros H; discriminate H.
    + intros Hinv k r. rewrite D. intros Hk.
      destruct (lookup_one_insert _ _ _ _ _ Hk) as [[_ ->]|[_ Hk']].
      * intros H; discriminate H.
      * exact (Hinv _ _ Hk').
  - eexists. split; [exact W|]. split.
    + constructor; [|constructor; [|constructor]]; simpl;
        (split; [reflexivity|]; split; intros H; discriminate H).
    + intros Hinv k r. rewrite D. intros Hk.
      destruct (lookup_two_inserts _ _ _ _ _ _ Hk) as [[_ ->]|[_ Hk']].
      * intros H; discriminate H.
      * exact (Hinv _ _ Hk').
  - destruct (transcribeVideo_result E _ _ _ _ T) as (tr & Htr).
    eexists. split; [exact W|]. split.
    + constructor; [|constructor; [|constructor]]; simpl.
      * split; [reflexivity|]; split; intros H; discriminate H.
      * split; [reflexivity|]. split; [intros _ H; discriminate H|].
        intros _. exists tr, result. auto.
    + intros Hinv k r. rewrite D. intros Hk.
      destruct (lookup_two_inserts _ _ _ _ _ _ Hk) as [[_ ->]|[_ Hk']].
      * intros _ H; discriminate H.
      * exact (Hinv _ _ Hk').
Qed.

Lemma writes_keep_completed_rows_with_text_witness :
  let E := all_succeed (mkResult "hello world" (Some (124 # 10))) in
  let run := POST E env_with_key (request_for "v1") (world_with fresh_video) in
  exists r,
    db (fst run) !! "v1" = Some r
    /\ transcriptionStatus r = COMPLETED
    /\ completed_has_text r.
Proof.
  intros E run.
  destruct (writes_keep_completed_rows_with_text
              E env_with_key (request_for "v1") (world_with fresh_video))
    as (new & _ & _ & Hinv).
  eexists. split; [vm_compute; reflexivity|]. split; [reflexivity|].
  apply (Hinv) with (k := "v1"); [|vm_compute; reflexivity].
  intros k r Hk. unfold world_with in Hk. simpl in Hk.
  apply lookup_singleton_Some in Hk as [_ <-].
  intros H; discriminate H.
Defined.

(** ** The frame of a failing run *)

(** C7. An invocation that does not answer 200 leaves the transcription and
    the duration of every row as they were (a null transcription stays
    null); each write it commits carries neither a transcription nor a
    duration, so only the status column is written. *)
Theorem failing_run_writes_status_only E env request w resp :
  snd (POST E env request w) = inr resp ->
  status resp <> 200%Z ->
  exists new,
    writes (fst (POST E env request w)) = writes w ++ new
    /\ Forall (fun wr =>
         data_transcription (w_data wr) = None
         /\ data_duration (w_data wr) = None
         /\ transcription (w_after wr) = transcription (w_before wr)
         /\ duration (w_after wr) = duration (w_before wr))
         new
    /\ forall k,
         transcription <$> (db (fst (POST E env request w)) !! k)
         = transcription <$> (db w !! k)
         /\ duration <$> (db (fst (POST E env request w)) !! k)
            = duration <$> (db w !! k).
Proof.
  destruct (POST_cases E env request w) as (w' & resp' & -> & Hrun). simpl.
  intros H; injection H as ->. intros Hst.
  destruct Hrun as [w' resp D W P _
                   |w' key v Hid D W P Hv Hc
                   |w' key v resp Hid Hv Hc D W _
                   |w' key v resp v1 Hid Hv Hc D W _
                   |w' key v w2 result v1 v2 Hid Hv Hc T D W];
    try (exfalso; apply Hst; reflexivity).
  - exists []. rewrite app_nil_r. split; [exact W|]. split; [constructor|].
    intros k. rewrite D. auto.
  - eexists. split; [exact W|]. split.
    + constructor; [|constructor]. simpl. auto.
    + intros k. rewrite D. destruct (decide (key = k)) as [<-|Hne].
      * rewrite lookup_insert_eq, Hv. simpl. auto.
      * rewrite lookup_insert_ne by exact Hne. auto.
  - eexists. split; [exact W|]. split.
    + constructor; [|constructor; [|constructor]]; simpl; auto.
    + intros k. rewrite D. destruct (decide (key = k)) as [<-|Hne].
      * rewrite lookup_insert_eq, Hv. simpl. auto.
      * rewrite !lookup_insert_ne by exact Hne. auto.
Qed.

(** Scenario B: the extraction step throws. *)
Lemma failing_run_writes_status_only_witness :
  let run := POST extraction_fails env_with_key (request_for "v1")
                  (world_with fresh_video) in
  exists new,
    writes (fst run) = writes (world_with fresh_video) ++ new
    /\ Forall (fun wr =>
         data_transcription (w_data wr) = None
         /\ data_duration (w_data wr) = None
         /\ transcription (w_after wr) = transcription (w_before wr)
         /\ duration (w_after wr) = duration (w_before wr))
         new
    /\ forall k,
         transcription <$> (db (fst run) !! k)
         = transcription <$> (db (world_with fresh_video) !! k)
         /\ duration <$> (db (fst run) !! k)
            = duration <$> (db (world_with fresh_video) !! k).
Proof.
  apply (failing_run_writes_status_only
           extraction_fails env_with_key (request_for "v1")
           (world_with fresh_video)
           {| status := 500;
              body := JObj [("error", JStr "Failed to extract audio from video")] |}).
  - vm_compute. reflexivity.
  - simpl. discriminate.
Defined.

(** ** Temp paths *)

(** C8. Two distinct calls of [downloadToTemp] (different URLs, different
    worlds) that read the same millisecond from [Date.now()] return the same
    path, and so do two such calls of [extractAndCompressAudio]: the paths
    of distinct allocations are not always distinct. *)
Theorem same_millisecond_allocations_collide :
  let E := all_succeed (mkResult "unused" None) in
  let w := world_with fresh_video in
  let first := downloadToTemp E "http://minio:9002/videos/a.mp4" w in
  let second := downloadToTemp E "http://minio:9002/videos/b.mp4" (fst first) in
  let third := extractAndCompressAudio E "/tmp/a.mp4" (fst second) in
  let fourth := extractAndCompressAudio E "/tmp/b.mp4" (fst third) in
  snd first = inr "/tmp/video_1700000000000.mp4"
  /\ snd second = inr "/tmp/video_1700000000000.mp4"
  /\ snd third = inr "/tmp/audio_1700000000000.mp3"
  /\ snd fourth = inr "/tmp/audio_1700000000000.mp3".
Proof. cbv zeta. repeat split; vm_compute; reflexivity. Qed.

(** * Further properties of the pipeline *)

Section StageFacts.

Variable E : Collaborators.

Lemma downloadToTemp_eq url w :
  downloadToTemp E url w =
  let w1 := logged (EvFetch url) w in
  let w2 := logged (EvWriteFile (video_path_of E w)) w1 in
  match fetch_outcome E (trace w1) with
  | inl e => (w1, inl e)
  | inr response =>
      if ok response then
        match arrayBuffer_fault response with
        | Some e => (w1, inl e)
        | None =>
            match writeFile_fault E (trace w2) with
            | Some e => (w2, inl e)
            | None => (w2, inr (video_path_of E w))
            end
        end
      else (w1, inl (JsError ("Failed to download: " +:+ statusText response)))
  end.
Proof.
  unfold downloadToTemp, video_path_of, bind, log, get_trace; simpl.
  destruct (fetch_outcome E _) as [e|resp]; [reflexivity|].
  destruct (ok resp); simpl; [|reflexivity].
  destruct (arrayBuffer_fault resp); [reflexivity|].
  rewrite fault_eq. simpl. destruct (writeFile_fault E _); reflexivity.
Qed.

Lemma extractAndCompressAudio_eq vp w :
  extractAndCompressAudio E vp w =
  let ap := path_join (os_tmpdir E) (audio_temp_name (Date_now E (trace w))) in
  let w1 := logged (EvExec (ffmpeg_command vp ap)) w in
  match exec_fault E (trace w1) with
  | Some _ => (w1, inl (JsError "Failed to extract audio from video"))
  | None => (w1, inr ap)
  end.
Proof.
  unfold extractAndCompressAudio, bind, try_catch, log; simpl.
  rewrite fault_eq. simpl. destruct (exec_fault E _); reflexivity.
Qed.

Lemma transcribeAudio_eq ap w :
  transcribeAudio E ap w =
  let w1 := logged (EvReadFile ap) w in
  let w2 := logged (EvWhisper ap) w1 in
  match readFile_fault E (trace w1) with
  | Some _ => (w1, inl (JsError "Failed to transcribe audio"))
  | None =>
      match whisper_outcome E (trace w2) with
      | inl _ => (w2, inl (JsError "Failed to transcribe audio"))
      | inr result => (w2, inr result)
      end
  end.
Proof.
  unfold transcribeAudio, bind, try_catch, log, get_trace; simpl.
  rewrite fault_eq. simpl. destruct (readFile_fault E _); [reflexivity|].
  destruct (whisper_outcome E _) as [e|[t d]]; reflexivity.
Qed.

Lemma snoc2 {A} (l : list A) a b : (l ++ [a]) ++ [b] = l ++ [a; b].
Proof. rewrite <- app_assoc. reflexivity. Qed.

End StageFacts.

(** X1. The calls of a run follow one script: fetch, writeFile, ffmpeg,
    readFile, speech service, each at most once and in that order, stopping
    at the first call that fails: the run makes exactly the calls up to
    [stop_point], every call before it answered, and when fewer than five
    were made the last one failed.  The file written by the download is
    ffmpeg's input, ffmpeg's output is the file read and sent to the speech
    service; then come the unlinks of the paths held, and nothing else.  The
    run throws exactly when its last call failed; a run that returns a
    result has made all five calls and returns what the speech service
    answered. *)
Theorem transcribeVideo_follows_the_script E url w :
  let vp := video_path_of E w in
  let ap := audio_path_of E url w in
  let script := pipeline_script url vp ap in
  let n := stop_point E url w in
  1 <= n <= 5
  /\ (forall i, 1 <= i < n -> step_fails E url w i = false)
  /\ (n < 5 -> step_fails E url w n = true)
  /\ trace (fst (transcribeVideo E url w))
     = trace w ++ take n script ++ map EvUnlink (held_after n vp ap)
  /\ match snd (transcribeVideo E url w) with
     | inr result =>
         n = 5 /\ step_fails E url w 5 = false
         /\ whisper_outcome E (trace w ++ script) = inr result
     | inl _ => step_fails E url w n = true
     end.
Proof.
  intros vp ap script n.
  pose proof (transcribeVideo_cases E url w) as H.
  rewrite downloadToTemp_eq in H. cbv zeta in H. fold vp in H.
  assert (Hap : path_join (os_tmpdir E)
                  (audio_temp_name
                     (Date_now E (trace (logged (EvWriteFile vp)
                                           (logged (EvFetch url) w))))) = ap).
  { unfold ap, audio_path_of. simpl. rewrite snoc2. reflexivity. }
  assert (S1 : step_fails E url w 1
               = match fetch_outcome E (trace w ++ [EvFetch url]) with
                 | inl _ => true
                 | inr response =>
                     negb (ok response) || is_thrown (arrayBuffer_fault response)
                 end) by reflexivity.
  assert (S2 : step_fails E url w 2
               = is_thrown (writeFile_fault E
                              (trace (logged (EvWriteFile vp)
                                        (logged (EvFetch url) w))))).
  { unfold step_fails. simpl. rewrite snoc2. reflexivity. }
  assert (S3 : step_fails E url w 3
               = is_thrown (exec_fault E
                   (trace (logged (EvExec (ffmpeg_command vp ap))
                             (logged (EvWriteFile vp) (logged (EvFetch url) w)))))).
  { unfold step_fails. simpl. repeat rewrite <- app_assoc. reflexivity. }
  assert (S4 : step_fails E url w 4
               = is_thrown (readFile_fault E
                   (trace (logged (EvReadFile ap)
                             (logged (EvExec (ffmpeg_command vp ap))
                                (logged (EvWriteFile vp)
                                   (logged (EvFetch url) w))))))).
  { unfold step_fails. simpl. repeat rewrite <- app_assoc. reflexivity. }
  assert (S5 : whisper_outcome E (trace w ++ script)
               = whisper_outcome E
                   (trace (logged (EvWhisper ap)
                             (logged (EvReadFile ap)
                                (logged (EvExec (ffmpeg_command vp ap))
                                   (logged (EvWriteFile vp)
                                      (logged (EvFetch url) w))))))).
  { simpl. repeat rewrite <- app_assoc. reflexivity. }
  assert (S5' : step_fails E url w 5
                = match whisper_outcome E (trace w ++ script) with
                  | inl _ => true
                  | inr _ => false
                  end) by reflexivity.
  assert (Hbefore : forall m, 1 <= m <= 5 ->
             (forall i, 1 <= i < m -> step_fails E url w i = false) ->
             (m < 5 -> step_fails E url w m = true) ->
             stop_point E url w = m).
  { intros m Hm Hlt Hat. unfold stop_point.
    destruct m as [|[|[|[|[|[|m]]]]]]; try lia;
      repeat match goal with
             | |- context [step_fails E url w ?k] =>
                 first [ rewrite (Hlt k) by lia | rewrite Hat by lia ]
             end; reflexivity. }
  assert (Hdone : forall m w' (r : Thrown + TranscriptionResult),
             transcribeVideo E url w = (w', r) ->
             1 <= m <= 5 ->
             (forall i, 1 <= i < m -> step_fails E url w i = false) ->
             (m < 5 -> step_fails E url w m = true) ->
             trace w' = trace w ++ take m script
                               ++ map EvUnlink (held_after m vp ap) ->
             match r with
             | inr result =>
                 m = 5 /\ step_fails E url w 5 = false
                 /\ whisper_outcome E (trace w ++ script) = inr result
             | inl _ => step_fails E url w m = true
             end ->
             1 <= n <= 5
             /\ (forall i, 1 <= i < n -> step_fails E url w i = false)
             /\ (n < 5 -> step_fails E url w n = true)
             /\ trace (fst (transcribeVideo E url w))
                = trace w ++ take n script ++ map EvUnlink (held_after n vp ap)
             /\ match snd (transcribeVideo E url w) with
                | inr result =>
                    n = 5 /\ step_fails E url w 5 = false
                    /\ whisper_outcome E (trace w ++ script) = inr result
                | inl _ => step_fails E url w n = true
                end).
  { intros m w' r -> Hm Hlt Hat Htr Hout. unfold n.
    rewrite (Hbefore m Hm Hlt Hat). auto. }
  assert (Hsmall : forall m i (P : nat -> Prop),
             (forall k, 1 <= k < m -> P k) -> P m -> 1 <= i < S m -> P i).
  { intros m i P Hk Hm Hi. destruct (decide (i = m)) as [->|]; [exact Hm|].
    apply Hk. lia. }
  destruct (fetch_outcome E (trace (logged (EvFetch url) w))) as [e|resp] eqn:Hf.
  { apply (Hdone 1 _ _ H); [lia|intros; lia|intros _; rewrite S1; simpl in Hf;
      rewrite Hf; reflexivity|reflexivity|rewrite S1; simpl in Hf; rewrite Hf;
      reflexivity]. }
  simpl in Hf. rewrite Hf in S1.
  destruct (ok resp) eqn:Hok.
  2:{ apply (Hdone 1 _ _ H); [lia|intros; lia|intros _; exact S1|reflexivity
      |exact S1]. }
  destruct (arrayBuffer_fault resp) eqn:Hab.
  { apply (Hdone 1 _ _ H); [lia|intros; lia|intros _; exact S1|reflexivity
      |exact S1]. }
  simpl in S1.
  assert (B1 : forall i, 1 <= i < 2 -> step_fails E url w i = false).
  { intros i Hi. replace i with 1 by lia. exact S1. }
  destruct (writeFile_fault E _) as [e|] eqn:Hw.
  { simpl in S2.
    apply (Hdone 2 _ _ H); [lia|exact B1|intros _; exact S2|simpl; apply snoc2
      |exact S2]. }
  simpl in S2.
  assert (B2 : forall i, 1 <= i < 3 -> step_fails E url w i = false).
  { intros i Hi. apply (Hsmall 2 i (fun k => step_fails E url w k = false) B1 S2 Hi). }
  rewrite extractAndCompressAudio_eq in H. cbv zeta in H. rewrite Hap in H.
  destruct (exec_fault E _) as [e|] eqn:Hx.
  { simpl in S3.
    apply (Hdone 3 _ _ H); [lia|exact B2|intros _; exact S3
      |simpl; repeat rewrite <- app_assoc; reflexivity|exact S3]. }
  simpl in S3.
  assert (B3 : forall i, 1 <= i < 4 -> step_fails E url w i = false).
  { intros i Hi. apply (Hsmall 3 i (fun k => step_fails E url w k = false) B2 S3 Hi). }
  rewrite transcribeAudio_eq in H. cbv zeta in H.
  destruct (readFile_fault E _) as [e|] eqn:Hr.
  { simpl in S4.
    apply (Hdone 4 _ _ H); [lia|exact B3|intros _; exact S4
      |simpl; repeat rewrite <- app_assoc; reflexivity|exact S4]. }
  simpl in S4.
  assert (B4 : forall i, 1 <= i < 5 -> step_fails E url w i = false).
  { intros i Hi. apply (Hsmall 4 i (fun k => step_fails E url w k = false) B3 S4 Hi). }
  rewrite <- S5 in H.
  destruct (whisper_outcome E (trace w ++ script)) as [e|result] eqn:Hs.
  - apply (Hdone 5 _ _ H); [lia|exact B4|intros; lia
      |simpl; repeat rewrite <- app_assoc; reflexivity|exact S5'].
  - apply (Hdone 5 _ _ H); [lia|exact B4|intros; lia
      |simpl; repeat rewrite <- app_assoc; reflexivity|auto].
Qed.

(** ffmpeg fails: the run stops at the third call, after two calls that
    answered. *)
Lemma transcribeVideo_follows_the_script_witness :
  let E := extraction_fails in
  let url := "http://minio:9002/videos/k.mp4" in
  let w := world_with fresh_video in
  stop_point E url w = 3
  /\ step_fails E url w 2 = false
  /\ step_fails E url w (stop_point E url w) = true.
Proof.
  intros E url w.
  destruct (transcribeVideo_follows_the_script E url w)
    as (_ & Hbefore & Hat & _).
  split; [reflexivity|]. split.
  - apply Hbefore. change (stop_point E url w) with 3. lia.
  - apply Hat. change (stop_point E url w) with 3. lia.
Defined.

(** X2. An exception of [transcribeVideo] is the exception of the download,
    passed on unchanged with nothing unlinked, or one of two fixed [Error]s:
    what ffmpeg, [readFile] or the speech service threw never reaches the
    caller. *)
Theorem transcribeVideo_throws_three_kinds E url w w' e :
  transcribeVideo E url w = (w', inl e) ->
  downloadToTemp E url w = (w', inl e)
  \/ e = JsError "Failed to extract audio from video"
  \/ e = JsError "Failed to transcribe audio".
Proof.
  pose proof (transcribeVideo_cases E url w) as H.
  destruct (downloadToTemp E url w) as [w1 [e1|vp]].
  - rewrite H. intros H'; injection H' as <- <-. auto.
  - rewrite extractAndCompressAudio_eq in H. cbv zeta in H.
    destruct (exec_fault E _).
    + rewrite H. intros H'; injection H' as _ <-. auto.
    + rewrite transcribeAudio_eq in H. cbv zeta in H.
      destruct (readFile_fault E _).
      * rewrite H. intros H'; injection H' as _ <-. auto.
      * destruct (whisper_outcome E _); rewrite H; intros H';
          [injection H' as _ <-; auto|discriminate].
Qed.

Lemma transcribeVideo_throws_three_kinds_witness :
  downloadToTemp service_and_unlink_fail "http://minio:9002/videos/k.mp4"
                 (world_with fresh_video)
  = (fst (transcribeVideo service_and_unlink_fail "http://minio:9002/videos/k.mp4"
                          (world_with fresh_video)),
     inl (JsError "Failed to transcribe audio"))
  \/ JsError "Failed to transcribe audio"
     = JsError "Failed to extract audio from video"
  \/ JsError "Failed to transcribe audio" = JsError "Failed to transcribe audio".
Proof.
  apply (transcribeVideo_throws_three_kinds service_and_unlink_fail
           "http://minio:9002/videos/k.mp4" (world_with fresh_video)).
  vm_compute. reflexivity.
Defined.

(** X3. When the object store answers with a non-success status, the run
    ends after that one call: [transcribeVideo] throws an [Error] naming the
    status text, no file is written, ffmpeg and the speech service are not
    called, and nothing is unlinked. *)
Theorem refused_download_ends_the_run E url w response :
  fetch_outcome E (trace w ++ [EvFetch url]) = inr response ->
  ok response = false ->
  transcribeVideo E url w
  = (logged (EvFetch url) w,
     inl (JsError ("Failed to download: " +:+ statusText response))).
Proof.
  intros Hf Hok. pose proof (transcribeVideo_cases E url w) as H.
  rewrite downloadToTemp_eq in H. cbv zeta in H. simpl trace in H.
  rewrite Hf, Hok in H. exact H.
Qed.

Lemma refused_download_ends_the_run_witness :
  transcribeVideo download_refused "http://minio:9002/videos/k.mp4"
                  (world_with fresh_video)
  = (logged (EvFetch "http://minio:9002/videos/k.mp4") (world_with fresh_video),
     inl (JsError "Failed to download: Not Found")).
Proof.
  apply (refused_download_ends_the_run download_refused
           "http://minio:9002/videos/k.mp4" (world_with fresh_video)
           (mkResp false "Not Found" None)); reflexivity.
Defined.

(** X4. [cleanupTempFiles] never throws: whatever each [unlink] answers, it
    goes on to the next path, so every path it is given is unlinked, in the
    order given (a path given twice is unlinked twice), and the record store
    is not touched. *)
Theorem cleanupTempFiles_goes_through_every_path E paths w :
  snd (cleanupTempFiles E paths w) = inr tt
  /\ trace (fst (cleanupTempFiles E paths w)) = trace w ++ map EvUnlink paths
  /\ unlinked (trace (fst (cleanupTempFiles E paths w)))
     = unlinked (trace w) ++ paths
  /\ db (fst (cleanupTempFiles E paths w)) = db w.
Proof.
  rewrite cleanupTempFiles_spec. simpl.
  rewrite unlinked_app, unlinked_map_EvUnlink. auto.
Qed.

(** X5. When ffmpeg fails, the run unlinks the video file and only it: the
    audio path ffmpeg was told to write (with [-y]) is a different path and
    is not unlinked, so whatever ffmpeg left there stays. *)
Theorem failed_extraction_leaves_the_audio_path E url w w1 vp e :
  downloadToTemp E url w = (w1, inr vp) ->
  let ap := path_join (os_tmpdir E) (audio_temp_name (Date_now E (trace w1))) in
  exec_fault E (trace w1 ++ [EvExec (ffmpeg_command vp ap)]) = Some e ->
  trace (fst (transcribeVideo E url w))
  = trace w1 ++ [EvExec (ffmpeg_command vp ap); EvUnlink vp]
  /\ unlinked (trace (fst (transcribeVideo E url w))) = unlinked (trace w) ++ [vp]
  /\ ap <> vp.
Proof.
  intros Hd ap He.
  pose proof (transcribeVideo_cases E url w) as H. rewrite Hd in H.
  rewrite extractAndCompressAudio_eq in H. cbv zeta in H. fold ap in H.
  simpl trace in H. rewrite He in H. rewrite H. simpl.
  split; [apply snoc2|]. split.
  - rewrite !unlinked_app. simpl. rewrite app_nil_r.
    pose proof (downloadToTemp_frame E url w) as (_ & _ & U).
    rewrite Hd in U. simpl in U. rewrite U. reflexivity.
  - rewrite (downloadToTemp_returns E _ _ _ _ Hd). subst ap.
    intros Heq. symmetry in Heq. exact (video_audio_paths_differ _ _ _ Heq).
Qed.

Lemma failed_extraction_leaves_the_audio_path_witness :
  let E := extraction_fails in
  let url := "http://minio:9002/videos/k.mp4" in
  let w := world_with fresh_video in
  trace (fst (transcribeVideo E url w))
  = trace (fst (downloadToTemp E url w))
    ++ [EvExec (ffmpeg_command "/tmp/video_1700000000000.mp4"
                               "/tmp/audio_1700000000000.mp3");
        EvUnlink "/tmp/video_1700000000000.mp4"]
  /\ unlinked (trace (fst (transcribeVideo E url w)))
     = unlinked (trace w) ++ ["/tmp/video_1700000000000.mp4"]
  /\ "/tmp/audio_1700000000000.mp3" <> "/tmp/video_1700000000000.mp4".
Proof.
  intros E url w.
  apply (failed_extraction_leaves_the_audio_path E url w
           (fst (downloadToTemp E url w)) "/tmp/video_1700000000000.mp4"
           (JsError "Command failed: ffmpeg")); reflexivity.
Defined.

(** X6. When the write of the downloaded bytes fails, [writeFile]'s own
    exception is what [transcribeVideo] throws, and the run ends there: the
    path handed to [writeFile] is not unlinked, ffmpeg is not started. *)
Theorem failed_write_leaves_the_video_path E url w response e :
  fetch_outcome E (trace w ++ [EvFetch url]) = inr response ->
  ok response = true ->
  arrayBuffer_fault response = None ->
  writeFile_fault E (trace w ++ [EvFetch url; EvWriteFile (video_path_of E w)])
  = Some e ->
  transcribeVideo E url w
  = (logged (EvWriteFile (video_path_of E w)) (logged (EvFetch url) w), inl e).
Proof.
  intros Hf Hok Hab Hw. pose proof (transcribeVideo_cases E url w) as H.
  rewrite downloadToTemp_eq in H. cbv zeta in H. simpl trace in H.
  rewrite Hf, Hok, Hab, snoc2, Hw in H. exact H.
Qed.

Lemma failed_write_leaves_the_video_path_witness :
  transcribeVideo disk_full "http://minio:9002/videos/k.mp4" (world_with fresh_video)
  = (logged (EvWriteFile "/tmp/video_1700000000000.mp4")
       (logged (EvFetch "http://minio:9002/videos/k.mp4") (world_with fresh_video)),
     inl (JsError "ENOSPC: no space left on device")).
Proof.
  apply (failed_write_leaves_the_video_path disk_full
           "http://minio:9002/videos/k.mp4" (world_with fresh_video)
           (mkResp true "OK" None)); reflexivity.
Defined.

(** * Further properties of the handler *)

(** X7. An invocation never adds or removes a row, never changes the [id] or
    the [fileKey] of a row, and leaves every row other than the one the
    request names exactly as it was. *)
Theorem POST_touches_only_the_requested_row E env request w :
  dom (db (fst (POST E env request w))) = dom (db w)
  /\ (forall k v',
        db (fst (POST E env request w)) !! k = Some v' ->
        exists v, db w !! k = Some v /\ id v' = id v /\ fileKey v' = fileKey v)
  /\ (forall k,
        destructure_videoId request <> inr (JStr k) ->
        db (fst (POST E env request w)) !! k = db w !! k).
Proof.
  destruct (POST_cases E env request w) as (w' & resp & -> & Hrun). simpl.
  destruct Hrun as [w' resp D W P _
                   |w' key v Hid D W P Hv Hc
                   |w' key v resp Hid Hv Hc D W _
                   |w' key v resp v1 Hid Hv Hc D W _
                   |w' key v w2 result v1 v2 Hid Hv Hc T D W];
    rewrite D; clear D.
  - split; [reflexivity|]. split; [|reflexivity]. intros k v' Hk. eauto.
  - split; [reflexivity|]. split; [|reflexivity]. intros k v' Hk. eauto.
  - split; [apply dom_insert_lookup_L; eauto|]. split.
    + intros k v' Hk.
      destruct (lookup_one_insert _ _ _ _ _ Hk) as [[-> ->]|[_ Hk']]; eauto.
    + intros k Hne. apply lookup_insert_ne. intros ->. apply Hne, Hid.
  - split.
    { rewrite !dom_insert_lookup_L; [reflexivity|eauto|].
      rewrite lookup_insert_eq. eauto. }
    split.
    + intros k v' Hk.
      destruct (lookup_two_inserts _ _ _ _ _ _ Hk) as [[-> ->]|[_ Hk']]; eauto.
    + intros k Hne. rewrite !lookup_insert_ne; [reflexivity| |];
        intros ->; apply Hne, Hid.
  - split.
    { rewrite !dom_insert_lookup_L; [reflexivity|eauto|].
      rewrite lookup_insert_eq. eauto. }
    split.
    + intros k v' Hk.
      destruct (lookup_two_inserts _ _ _ _ _ _ Hk) as [[-> ->]|[_ Hk']]; eauto.
    + intros k Hne. rewrite !lookup_insert_ne; [reflexivity| |];
        intros ->; apply Hne, Hid.
Qed.

Lemma POST_touches_only_the_requested_row_witness :
  let E := all_succeed (mkResult "hello world" None) in
  let w := {| db := <["v2" := completed_video "other"]> {[ "v1" := fresh_video ]};
              trace := []; writes := [] |} in
  db (fst (POST E env_with_key (request_for "v1") w)) !! "v2"
  = Some (completed_video "other")
  /\ exists v, db w !! "v1" = Some v /\ id fresh_video = id v.
Proof.
  intros E w.
  destruct (POST_touches_only_the_requested_row E env_with_key (request_for "v1") w)
    as (_ & Hrows & Hother).
  split.
  - rewrite (Hother "v2"); [reflexivity|discriminate].
  - destruct (Hrows "v1" (apply_update (apply_update fresh_video processing_data)
                            (completed_data (mkResult "hello world" None)
                                            fresh_video)))
      as (v & Hv & Hi & _); [vm_compute; reflexivity|].
    exists v. split; [exact Hv|exact Hi].
Defined.

(** X8. A 200 answer is never given for something that is not stored: the
    request named a row, that row is now COMPLETED in the store, and the
    transcription in the answer is the non-null text stored in it. *)
Theorem answer_200_carries_the_stored_text E env request w w' resp :
  POST E env request w = (w', inr resp) ->
  status resp = 200%Z ->
  exists key v' t,
    destructure_videoId request = inr (JStr key)
    /\ db w' !! key = Some v'
    /\ transcriptionStatus v' = COMPLETED
    /\ transcription v' = Some t
    /\ response_field "transcription" resp = JStr t
    /\ response_field "status" resp = JStr "COMPLETED".
Proof.
  destruct (POST_cases E env request w) as (w0 & resp0 & -> & Hrun).
  intros H; injection H as -> ->. intros Hst.
  destruct Hrun as [w' resp D W P [S|[S|S]]
                   |w' key v Hid D W P Hv Hc
                   |w' key v resp Hid Hv Hc D W S
                   |w' key v resp v1 Hid Hv Hc D W S
                   |w' key v w2 result v1 v2 Hid Hv Hc T D W];
    try (rewrite S in Hst; discriminate).
  - unfold already_transcribed in Hc. apply andb_prop in Hc as [Hs Ht].
    destruct (transcription v) as [t|] eqn:Htr; [|discriminate].
    exists key, v, t. rewrite D.
    split; [exact Hid|]. split; [exact Hv|].
    split; [destruct (transcriptionStatus v); (reflexivity || discriminate)|].
    split; [exact Htr|].
    unfold response_field, cached_response. simpl. rewrite Htr. auto.
  - exists key, v2, (text result). rewrite D.
    split; [exact Hid|]. split; [apply lookup_insert_eq|]. repeat split.
Qed.

Lemma answer_200_carries_the_stored_text_witness :
  let E := all_succeed (mkResult "hello world" (Some (124 # 10))) in
  let run := POST E env_with_key (request_for "v1") (world_with fresh_video) in
  exists key v' t,
    destructure_videoId (request_for "v1") = inr (JStr key)
    /\ db (fst run) !! key = Some v'
    /\ transcriptionStatus v' = COMPLETED
    /\ transcription v' = Some t
    /\ response_field "transcription" (success_response
         (apply_update (apply_update fresh_video processing_data)
            (completed_data (mkResult "hello world" (Some (124 # 10)))
               fresh_video))) = JStr t
    /\ response_field "status" (success_response
         (apply_update (apply_update fresh_video processing_data)
            (completed_data (mkResult "hello world" (Some (124 # 10)))
               fresh_video))) = JStr "COMPLETED".
Proof.
  intros E run.
  apply (answer_200_carries_the_stored_text E env_with_key (request_for "v1")
           (world_with fresh_video)).
  - vm_compute. reflexivity.
  - reflexivity.
Defined.

(** X9. A request for an id that is not in the store is answered 404 "Video
    not found" after the one lookup: nothing is written and the pipeline is
    not started. *)
Theorem unknown_video_is_answered_404 E env request key w :
  destructure_videoId request = inr (JStr key) ->
  string_truthy key = true ->
  credential_configured env = true ->
  db_fault E (trace w ++ [EvFindUnique (JStr key)]) = None ->
  db w !! key = None ->
  POST E env request w
  = (logged (EvFindUnique (JStr key)) w,
     inr {| status := 404; body := JObj [("error", JStr "Video not found")] |}).
Proof.
  intros Hid Hkey Hcred Hfind Hrow. unfold POST, try_catch. unfold bind at 1.
  rewrite Hid. simpl. rewrite Hkey, Hcred. simpl. unfold bind at 1.
  rewrite findUnique_eq. cbv zeta. simpl trace. rewrite Hfind, Hrow. reflexivity.
Qed.

Lemma unknown_video_is_answered_404_witness :
  POST (all_succeed (mkResult "unused" None)) env_with_key (request_for "nope")
       (world_with fresh_video)
  = (logged (EvFindUnique (JStr "nope")) (world_with fresh_video),
     inr {| status := 404; body := JObj [("error", JStr "Video not found")] |}).
Proof.
  apply (unknown_video_is_answered_404
           (all_succeed (mkResult "unused" None)) env_with_key (request_for "nope")
           "nope" (world_with fresh_video)); reflexivity.
Defined.

(** X10. When the pipeline succeeds and the record store refuses the write
    of the result, the result is dropped: the handler writes FAILED, answers
    500 with the store's error message (if it is an [Error]), and the row
    keeps the transcription and the duration it had. *)
Theorem refused_save_drops_the_result E env request key v w w2 result e :
  destructure_videoId request = inr (JStr key) ->
  string_truthy key = true ->
  credential_configured env = true ->
  db_fault E (trace w ++ [EvFindUnique (JStr key)]) = None ->
  db w !! key = Some v ->
  already_transcribed v = false ->
  db_fault E (trace w ++ [EvFindUnique (JStr key);
                          EvUpdate (JStr key) processing_data]) = None ->
  transcribeVideo E (videoUrl_of env v) (marked_processing key v w)
  = (w2, inr result) ->
  db_fault E (trace w2 ++ [EvUpdate (JStr key) (completed_data result v)])
  = Some e ->
  db_fault E (trace w2 ++ [EvUpdate (JStr key) (completed_data result v);
                           EvUpdate (JStr key) failed_data]) = None ->
  exists w' v',
    POST E env request w
    = (w', inr {| status := 500;
                  body := JObj [("error", JStr (error_message e))] |})
    /\ db w' !! key = Some v'
    /\ transcriptionStatus v' = FAILED
    /\ transcription v' = transcription v
    /\ duration v' = duration v.
Proof.
  intros Hid Hkey Hcred Hfind Hrow Hc Hupd Ht Hsave Hfail.
  rewrite (POST_runs E env request key v w Hid Hkey Hcred Hfind Hrow Hc Hupd).
  destruct (transcribeVideo_frame E (videoUrl_of env v) (marked_processing key v w))
    as [Fd _].
  rewrite Ht in Fd; simpl fst in Fd.
  unfold run_and_save, try_catch. unfold bind at 1. rewrite Ht.
  unfold bind at 1. rewrite (update_throws E _ _ _ _ Hsave).
  unfold bind.
  rewrite (update_ok E key failed_data (apply_update v processing_data)).
  - do 2 eexists. split; [reflexivity|]. split; [simpl; apply lookup_insert_eq|].
    repeat split.
  - simpl. rewrite snoc2. exact Hfail.
  - simpl db. rewrite Fd. apply lookup_marked_processing.
Qed.

Lemma refused_save_drops_the_result_witness :
  exists w' v',
    POST (save_refused (mkResult "hello world" None)) env_with_key
         (request_for "v1") (world_with fresh_video)
    = (w', inr {| status := 500;
                  body := JObj [("error", JStr "Can't reach database server")] |})
    /\ db w' !! "v1" = Some v'
    /\ transcriptionStatus v' = FAILED
    /\ transcription v' = transcription fresh_video
    /\ duration v' = duration fresh_video.
Proof.
  eapply (refused_save_drops_the_result
            (save_refused (mkResult "hello world" None)) env_with_key
            (request_for "v1") "v1" fresh_video (world_with fresh_video)
            _ (mkResult "hello world" None)
            (JsError "Can't reach database server"));
    reflexivity.
Defined.

(** X11. When the record store refuses the write that marks the row
    PROCESSING, the handler answers 500 "Internal server error" at once: the
    pipeline is not started and the store is as it was. *)
Theorem refused_mark_stops_before_the_pipeline E env request key v w e :
  destructure_videoId request = inr (JStr key) ->
  string_truthy key = true ->
  credential_configured env = true ->
  db_fault E (trace w ++ [EvFindUnique (JStr key)]) = None ->
  db w !! key = Some v ->
  already_transcribed v = false ->
  db_fault E (trace w ++ [EvFindUnique (JStr key);
                          EvUpdate (JStr key) processing_data]) = Some e ->
  POST E env request w
  = (logged (EvUpdate (JStr key) processing_data)
       (logged (EvFindUnique (JStr key)) w),
     inr {| status := 500; body := JObj [("error", JStr "Internal server error")] |}).
Proof.
  intros Hid Hkey Hcred Hfind Hrow Hc Hupd. unfold POST, try_catch.
  unfold bind at 1. rewrite Hid. simpl. rewrite Hkey, Hcred. simpl.
  unfold bind at 1. rewrite findUnique_eq. cbv zeta. simpl trace.
  rewrite Hfind, Hrow, Hc. unfold bind at 1.
  rewrite (update_throws E _ _ _ e); [reflexivity|].
  simpl. rewrite snoc2. exact Hupd.
Qed.

Lemma refused_mark_stops_before_the_pipeline_witness :
  POST updates_refused env_with_key (request_for "v1") (world_with fresh_video)
  = (logged (EvUpdate (JStr "v1") processing_data)
       (logged (EvFindUnique (JStr "v1")) (world_with fresh_video)),
     inr {| status := 500; body := JObj [("error", JStr "Internal server error")] |}).
Proof.
  apply (refused_mark_stops_before_the_pipeline
           updates_refused env_with_key (request_for "v1") "v1" fresh_video
           (world_with fresh_video) (JsError "Can't reach database server"));
    reflexivity.
Defined.

Lemma second_call_is_served_from_cache_witness :
  let E := all_succeed (mkResult "hello world" (Some (124 # 10))) in
  let w1 := fst (POST E env_with_key (request_for "v1") (world_with fresh_video)) in
  exists v',
    db w1 !! "v1" = Some v'
    /\ transcription v' = Some "hello world"
    /\ POST E env_with_key (request_for "v1") w1
       = (logged (EvFindUnique (JStr "v1")) w1, inr (cached_response v')).
Proof.
  intros E w1.
  eapply (second_call_is_served_from_cache E env_with_key (request_for "v1") "v1"
            fresh_video (world_with fresh_video) _
            (mkResult "hello world" (Some (124 # 10))));
    try reflexivity.
  discriminate.
Defined.

Section TraceFacts.

Variable E : Collaborators.

Lemma update_trace where_id data w :
  trace (fst (update E where_id data w)) = trace w ++ [EvUpdate where_id data].
Proof.
  destruct (update_cases E where_id data w) as [[e ->]|(k & v & -> & _ & ->)];
    reflexivity.
Qed.

Lemma transcribeVideo_starts_with_fetch url w :
  exists rest,
    trace (fst (transcribeVideo E url w)) = trace w ++ EvFetch url :: rest.
Proof.
  pose proof (transcribeVideo_cases E url w) as H.
  rewrite downloadToTemp_eq in H. cbv zeta in H.
  assert (Hfin : forall w' r rest,
             trace w' = trace w ++ EvFetch url :: rest ->
             transcribeVideo E url w = (w', r) ->
             exists rest,
               trace (fst (transcribeVideo E url w)) = trace w ++ EvFetch url :: rest).
  { intros w' r rest Ht ->. exists rest. exact Ht. }
  destruct (fetch_outcome E _) as [e|resp];
    [refine (Hfin _ _ [] _ H); reflexivity|].
  destruct (ok resp); [|refine (Hfin _ _ [] _ H); reflexivity].
  destruct (arrayBuffer_fault resp); [refine (Hfin _ _ [] _ H); reflexivity|].
  destruct (writeFile_fault E _).
  { refine (Hfin _ _ _ _ H). simpl. rewrite <- app_assoc. reflexivity. }
  rewrite extractAndCompressAudio_eq in H. cbv zeta in H.
  destruct (exec_fault E _).
  { refine (Hfin _ _ _ _ H). simpl. rewrite <- !app_assoc. reflexivity. }
  rewrite transcribeAudio_eq in H. cbv zeta in H.
  destruct (readFile_fault E _).
  { refine (Hfin _ _ _ _ H). simpl. rewrite <- !app_assoc. reflexivity. }
  destruct (whisper_outcome E _); refine (Hfin _ _ _ _ H); simpl;
    rewrite <- !app_assoc; reflexivity.
Qed.

Lemma run_and_save_trace env where_id v w1 :
  exists rest,
    trace (fst (run_and_save E env where_id v w1))
    = trace (fst (transcribeVideo E (videoUrl_of env v) w1)) ++ rest.
Proof.
  unfold run_and_save, try_catch. unfold bind at 1.
  destruct (transcribeVideo E (videoUrl_of env v) w1) as [w2 [e|result]]; simpl fst.
  - unfold bind.
    pose proof (update_trace where_id failed_data w2) as Hu.
    destruct (update E where_id failed_data w2) as [w3 [e'|u]]; simpl in *;
      eexists; exact Hu.
  - unfold bind at 1.
    pose proof (update_trace where_id (completed_data result v) w2) as Hu.
    destruct (update E where_id (completed_data result v) w2) as [w3 [e'|u]];
      simpl in Hu.
    + unfold bind.
      pose proof (update_trace where_id failed_data w3) as Hu'.
      destruct (update E where_id failed_data w3) as [w4 [e''|u']]; simpl in *;
        rewrite Hu', Hu, <- app_assoc; eexists; reflexivity.
    + simpl. eexists; exact Hu.
Qed.

End TraceFacts.

(** X12. The status of a row is no lock: a row that is not COMPLETED with a
    text is marked PROCESSING and run, whatever its status was (NONE,
    FAILED, or PROCESSING by another invocation still under way); the first
    call of the run fetches [endpoint/bucket/fileKey]. *)
Theorem unfinished_row_is_run_whatever_its_status E env request key v w :
  destructure_videoId request = inr (JStr key) ->
  string_truthy key = true ->
  credential_configured env = true ->
  db_fault E (trace w ++ [EvFindUnique (JStr key)]) = None ->
  db w !! key = Some v ->
  already_transcribed v = false ->
  db_fault E (trace w ++ [EvFindUnique (JStr key);
                          EvUpdate (JStr key) processing_data]) = None ->
  exists rest,
    trace (fst (POST E env request w))
    = trace w ++ [EvFindUnique (JStr key);
                  EvUpdate (JStr key) processing_data;
                  EvFetch (env_or env "S3_ENDPOINT" "http://minio:9002"
                           +:+ "/" +:+ env_or env "S3_BUCKET" "videos"
                           +:+ "/" +:+ fileKey v)]
              ++ rest.
Proof.
  intros Hid Hkey Hcred Hfind Hrow Hc Hupd.
  rewrite (POST_runs E env request key v w Hid Hkey Hcred Hfind Hrow Hc Hupd).
  destruct (run_and_save_trace E env (JStr key) v (marked_processing key v w))
    as (rest & Hr).
  destruct (transcribeVideo_starts_with_fetch E (videoUrl_of env v)
              (marked_processing key v w)) as (rest' & Hf).
  rewrite Hf in Hr.
  exists (rest' ++ rest).
  destruct (run_and_save E env (JStr key) v (marked_processing key v w))
    as [w' [e|resp]]; simpl in *; rewrite Hr; rewrite <- !app_assoc; reflexivity.
Qed.

Lemma unfinished_row_is_run_whatever_its_status_witness :
  exists rest,
    trace (fst (POST (all_succeed (mkResult "hello world" None)) env_with_key
                     (request_for "v1") (world_with processing_video)))
    = trace (world_with processing_video)
      ++ [EvFindUnique (JStr "v1");
          EvUpdate (JStr "v1") processing_data;
          EvFetch (env_or env_with_key "S3_ENDPOINT" "http://minio:9002"
                   +:+ "/" +:+ env_or env_with_key "S3_BUCKET" "videos"
                   +:+ "/" +:+ fileKey processing_video)]
      ++ rest.
Proof.
  apply (unfinished_row_is_run_whatever_its_status
           (all_succeed (mkResult "hello world" None)) env_with_key
           (request_for "v1") "v1" processing_video (world_with processing_video));
    reflexivity.
Defined.

(** X13. What a body without a usable [videoId] gets: the JSON value [null]
    cannot be destructured, so it is answered 500 "Internal server error";
    any other body that is not an object, and an object whose [videoId] is
    absent or falsy, is answered 400; in every case before the credential
    is looked at and with the world untouched. *)
Theorem body_without_videoId E env request w body :
  request_json request = inr body ->
  match body with
  | JUndefined | JNull =>
      POST E env request w
      = (w, inr {| status := 500;
                   body := JObj [("error", JStr "Internal server error")] |})
  | JObj fields =>
      truthy (get_field "videoId" fields) = false ->
      POST E env request w
      = (w, inr {| status := 400;
                   body := JObj [("error", JStr "Video ID is required")] |})
  | _ =>
      POST E env request w
      = (w, inr {| status := 400;
                   body := JObj [("error", JStr "Video ID is required")] |})
  end.
Proof.
  intros Hb. unfold POST, try_catch. unfold bind at 1.
  unfold destructure_videoId. rewrite Hb.
  destruct body; try reflexivity.
  intros Hfalsy. cbn [lift]. unfold bind at 1. unfold ret at 1.
  rewrite Hfalsy. reflexivity.
Qed.

Lemma body_without_videoId_witness :
  POST extraction_fails ∅ (mkRequest (inr JNull)) (world_with fresh_video)
  = (world_with fresh_video,
     inr {| status := 500;
            body := JObj [("error", JStr "Internal server error")] |}).
Proof.
  apply (body_without_videoId extraction_fails ∅ (mkRequest (inr JNull))
           (world_with fresh_video) JNull).
  reflexivity.
Defined.

Section AnswerShapes.

Variable E : Collaborators.

Lemma error_answer_500 message :
  is_error_answer (NextResponse_json (error_body message) (Some 500%Z)).
Proof. exists message. simpl. auto. Qed.

Lemma run_and_save_shape env where_id v w1 w' resp :
  run_and_save E env where_id v w1 = (w', inr resp) ->
  is_error_answer resp \/ is_transcription_answer resp.
Proof.
  unfold run_and_save, try_catch. unfold bind at 1.
  destruct (transcribeVideo E (videoUrl_of env v) w1) as [w2 [e|result]].
  - unfold bind. destruct (update E where_id failed_data w2) as [w3 [e'|u]];
      [discriminate|].
    unfold ret. intros H; injection H as _ <-. left. apply error_answer_500.
  - unfold bind at 1.
    destruct (update_cases E where_id (completed_data result v) w2)
      as [[e ->]|(k & v0 & -> & _ & ->)].
    + unfold bind.
      destruct (update E where_id failed_data _) as [w3 [e'|u]]; [discriminate|].
      unfold ret. intros H; injection H as _ <-. left. apply error_answer_500.
    + unfold ret. intros H; injection H as _ <-. right.
      split; [reflexivity|]. exists (text result). eexists.
      split; [reflexivity|]. right. eexists. reflexivity.
Qed.

End AnswerShapes.

(** X14. Every answer of the handler has one of two shapes: an object with
    the single property [error], a string, under status 400, 404 or 500; or,
    under status 200, [success: true], a [transcription] that is a string
    (never null), [status: "COMPLETED"], and then either [cached: true] or
    the [duration]. *)
Theorem every_answer_has_one_of_two_shapes E env request w :
  exists resp,
    snd (POST E env request w) = inr resp
    /\ (is_error_answer resp \/ is_transcription_answer resp).
Proof.
  assert (Herr : forall (w' : World) message code,
             In code [400; 404; 500]%Z ->
             exists resp,
               snd (w', @inr Thrown Response
                          (NextResponse_json (error_body message) (Some code)))
               = inr resp
               /\ (is_error_answer resp \/ is_transcription_answer resp)).
  { intros w' message code Hc. eexists. split; [reflexivity|]. left.
    exists message. auto. }
  unfold POST, try_catch. unfold bind at 1.
  destruct (destructure_videoId request) as [e|videoId]; cbn [lift throw ret].
  { apply Herr; simpl; auto. }
  destruct (truthy videoId); cbn [negb].
  2:{ apply Herr; simpl; auto. }
  destruct (credential_configured env); cbn [negb].
  2:{ apply Herr; simpl; auto. }
  unfold bind at 1. rewrite findUnique_eq. cbv zeta.
  destruct (db_fault E _) as [e|]; [apply Herr; simpl; auto|].
  destruct videoId as [| | | |key| |]; try (apply Herr; simpl; auto; fail).
  destruct (db w !! key) as [v|]; [|apply Herr; simpl; auto].
  destruct (already_transcribed v) eqn:Hc.
  { eexists. split; [reflexivity|]. right. split; [reflexivity|].
    unfold already_transcribed in Hc. apply andb_prop in Hc as [_ Ht].
    destruct (transcription v) as [t|] eqn:Htr; [|discriminate].
    exists t. eexists. unfold cached_response. simpl. rewrite Htr. auto. }
  unfold bind at 1.
  destruct (update E (JStr key) processing_data _) as [w1 [e|u]];
    [apply Herr; simpl; auto|].
  destruct (run_and_save E env (JStr key) v w1) as [w' [e|resp]] eqn:Hrun;
    [apply Herr; simpl; auto|].
  exists resp. split; [reflexivity|].
  exact (run_and_save_shape E env _ _ _ _ _ Hrun).
Qed.

(** * The route that serves a video *)

Lemma GET_eq E sign id w :
  GET E sign id w =
  let w1 := logged (EvFindUnique (JStr id)) w in
  (w1,
   inr match db_fault E (trace w1) with
       | Some _ => mkVideoResponse 500 (VideoError "Failed to fetch video")
       | None =>
           match db w !! id with
           | None => mkVideoResponse 404 (VideoError "Video not found")
           | Some video =>
               match sign (fileKey video) with
               | inl _ => mkVideoResponse 500 (VideoError "Failed to fetch video")
               | inr downloadUrl =>
                   mkVideoResponse 200 (VideoFound video downloadUrl)
               end
           end
       end).
Proof.
  unfold GET, try_catch. unfold bind at 1. rewrite findUnique_eq. cbv zeta.
  destruct (db_fault E _); [reflexivity|].
  destruct (db w !! id) as [v|]; [|reflexivity].
  unfold bind, lift. destruct (sign (fileKey v)); reflexivity.
Qed.

(** X15. The route that serves a video always answers (200, 404 or 500) and
    only reads: its one call is the lookup, the rows and the write log are
    as before.  What it answers is decided in this order.  An exception of
    the lookup is answered 500 "Failed to fetch video".  Otherwise an unknown
    id is answered 404 "Video not found", whatever the signer would do.
    Otherwise an exception of the signer is answered 500 "Failed to fetch
    video", and a URL from the signer is answered 200 with the row exactly
    as stored and that URL.  Conversely a 200 is only given for a stored row
    and the signer's URL for its file key, a 404 only for an unknown id, and
    a 500 only after an exception of the lookup or of the signer. *)
Theorem GET_only_reads E sign id w :
  exists resp,
    GET E sign id w = (logged (EvFindUnique (JStr id)) w, inr resp)
    /\ In (video_status resp) [200; 404; 500]%Z
    /\ (video_status resp = 200%Z ->
        exists video downloadUrl,
          db_fault E (trace w ++ [EvFindUnique (JStr id)]) = None
          /\ db w !! id = Some video
          /\ sign (fileKey video) = inr downloadUrl
          /\ video_body resp = VideoFound video downloadUrl)
    /\ (video_status resp = 404%Z ->
        db_fault E (trace w ++ [EvFindUnique (JStr id)]) = None
        /\ db w !! id = None /\ video_body resp = VideoError "Video not found")
    /\ (video_status resp = 500%Z ->
        video_body resp = VideoError "Failed to fetch video"
        /\ (db_fault E (trace w ++ [EvFindUnique (JStr id)]) <> None
            \/ exists video e,
                 db w !! id = Some video /\ sign (fileKey video) = inl e))
    /\ (db_fault E (trace w ++ [EvFindUnique (JStr id)]) <> None ->
        resp = mkVideoResponse 500 (VideoError "Failed to fetch video"))
    /\ (db_fault E (trace w ++ [EvFindUnique (JStr id)]) = None ->
        db w !! id = None ->
        resp = mkVideoResponse 404 (VideoError "Video not found"))
    /\ (db_fault E (trace w ++ [EvFindUnique (JStr id)]) = None ->
        forall video e,
          db w !! id = Some video -> sign (fileKey video) = inl e ->
          resp = mkVideoResponse 500 (VideoError "Failed to fetch video"))
    /\ (db_fault E (trace w ++ [EvFindUnique (JStr id)]) = None ->
        forall video downloadUrl,
          db w !! id = Some video -> sign (fileKey video) = inr downloadUrl ->
          resp = mkVideoResponse 200 (VideoFound video downloadUrl)).
Proof.
  rewrite GET_eq. cbv zeta. eexists. split; [reflexivity|].
  simpl trace.
  destruct (db_fault E (trace w ++ [EvFindUnique (JStr id)])) as [e|].
  { simpl. split; [auto|]. split; [discriminate|]. split; [discriminate|].
    split; [intros _; split; [reflexivity|left; discriminate]|].
    split; [reflexivity|]. repeat split; discriminate. }
  destruct (db w !! id) as [v|].
  2:{ simpl. split; [auto|]. split; [discriminate|]. split; [auto|].
      split; [discriminate|]. split; [intros H; contradiction|].
      split; [reflexivity|]. split; intros _ ? ? H; discriminate H. }
  destruct (sign (fileKey v)) as [e|url] eqn:Hs; simpl.
  - split; [auto|]. split; [discriminate|]. split; [discriminate|].
    split; [intros _; split; [reflexivity|right; eauto]|].
    split; [intros H; contradiction|]. split; [discriminate|].
    split; [reflexivity|].
    intros _ video url' Hv Hs'. injection Hv as <-. congruence.
  - split; [auto|]. split; [intros _; exists v, url; auto|].
    split; [discriminate|]. split; [discriminate|].
    split; [intros H; contradiction|]. split; [discriminate|].
    split.
    + intros _ video e Hv Hs'. injection Hv as <-. congruence.
    + intros _ video url' Hv Hs'. injection Hv as <-. congruence.
Qed.

Lemma GET_only_reads_witness :
  let E := all_succeed (mkResult "unused" None) in
  let w := world_with (completed_video "x") in
  GET E signer "v1" w
  = (logged (EvFindUnique (JStr "v1")) w,
     inr (mkVideoResponse 200
            (VideoFound (completed_video "x")
               "https://storage.example/k.mp4?signature=abc"))).
Proof.
  intros E w.
  destruct (GET_only_reads E signer "v1" w)
    as (resp & Heq & _ & _ & _ & _ & _ & _ & _ & H200).
  rewrite Heq. f_equal. f_equal. apply H200; reflexivity.
Defined.

(** X16. What the page fetches after a 200 answer of the transcription
    handler agrees with that answer: the row served for the same id is
    COMPLETED and its transcription is the text the handler answered. *)
Theorem video_served_after_a_200_has_the_text
        E env request key w w' resp sign downloadUrl :
  POST E env request w = (w', inr resp) ->
  status resp = 200%Z ->
  destructure_videoId request = inr (JStr key) ->
  db_fault E (trace w' ++ [EvFindUnique (JStr key)]) = None ->
  (forall video, db w' !! key = Some video -> sign (fileKey video) = inr downloadUrl) ->
  exists video t,
    GET E sign key w'
    = (logged (EvFindUnique (JStr key)) w',
       inr (mkVideoResponse 200 (VideoFound video downloadUrl)))
    /\ transcriptionStatus video = COMPLETED
    /\ transcription video = Some t
    /\ response_field "transcription" resp = JStr t.
Proof.
  destruct (POST_cases E env request w) as (w0 & resp0 & -> & Hrun).
  intros H; injection H as -> ->. intros Hst Hid Hfind Hsign.
  assert (Hserve : forall video,
             db w' !! key = Some video ->
             GET E sign key w'
             = (logged (EvFindUnique (JStr key)) w',
                inr (mkVideoResponse 200 (VideoFound video downloadUrl)))).
  { intros video Hrow. rewrite GET_eq. cbv zeta. simpl trace.
    rewrite Hfind, Hrow, (Hsign _ Hrow). reflexivity. }
  destruct Hrun as [w' resp D W P [S|[S|S]]
                   |w' key' v Hid' D W P Hv Hc
                   |w' key' v resp Hid' Hv Hc D W S
                   |w' key' v resp v1 Hid' Hv Hc D W S
                   |w' key' v w2 result v1 v2 Hid' Hv Hc T D W];
    try (rewrite S in Hst; discriminate);
    rewrite Hid in Hid'; injection Hid' as <-.
  - unfold already_transcribed in Hc. apply andb_prop in Hc as [Hs Ht].
    destruct (transcription v) as [t|] eqn:Htr; [|discriminate].
    exists v, t. split; [apply Hserve; rewrite D; exact Hv|].
    split; [destruct (transcriptionStatus v); (reflexivity || discriminate)|].
    split; [exact Htr|].
    unfold response_field, cached_response. simpl. rewrite Htr. reflexivity.
  - exists v2, (text result).
    split; [apply Hserve; rewrite D; apply lookup_insert_eq|]. repeat split.
Qed.

Lemma video_served_after_a_200_has_the_text_witness :
  let E := all_succeed (mkResult "hello world" (Some (124 # 10))) in
  let run := POST E env_with_key (request_for "v1") (world_with fresh_video) in
  exists video t,
    GET E signer "v1" (fst run)
    = (logged (EvFindUnique (JStr "v1")) (fst run),
       inr (mkVideoResponse 200
              (VideoFound video "https://storage.example/k.mp4?signature=abc")))
    /\ transcriptionStatus video = COMPLETED
    /\ transcription video = Some t
    /\ response_field "transcription"
         (success_response
            (apply_update (apply_update fresh_video processing_data)
               (completed_data (mkResult "hello world" (Some (124 # 10)))
                  fresh_video))) = JStr t.
Proof.
  intros E run.
  apply (video_served_after_a_200_has_the_text E env_with_key (request_for "v1")
           "v1" (world_with fresh_video)).
  - vm_compute. reflexivity.
  - reflexivity.
  - reflexivity.
  - reflexivity.
  - intros video Hrow. vm_compute in Hrow. injection Hrow as <-. reflexivity.
Defined.

(** * What a result of the pipeline stands on *)

(** X17. [transcribeVideo] returns a result only when every step answered:
    the fetch with a success status and a readable body, the write of the
    file, ffmpeg, the read of the audio file, and the speech service; the
    result is then exactly what the speech service answered (text and
    duration untouched), and both temp files have been unlinked. *)
Theorem transcribeVideo_result_needs_every_step E url w w' result :
  transcribeVideo E url w = (w', inr result) ->
  let vp := video_path_of E w in
  let ap := audio_path_of E url w in
  let script := pipeline_script url vp ap in
  (exists response,
     fetch_outcome E (trace w ++ take 1 script) = inr response
     /\ ok response = true /\ arrayBuffer_fault response = None)
  /\ writeFile_fault E (trace w ++ take 2 script) = None
  /\ exec_fault E (trace w ++ take 3 script) = None
  /\ readFile_fault E (trace w ++ take 4 script) = None
  /\ whisper_outcome E (trace w ++ script) = inr result
  /\ trace w' = trace w ++ script ++ [EvUnlink vp; EvUnlink ap].
Proof.
  intros Hrun vp ap script.
  pose proof (transcribeVideo_cases E url w) as H.
  rewrite downloadToTemp_eq in H. cbv zeta in H. fold vp in H.
  destruct (fetch_outcome E _) as [e|resp] eqn:Hf;
    [rewrite H in Hrun; discriminate|].
  destruct (ok resp) eqn:Hok; [|rewrite H in Hrun; discriminate].
  destruct (arrayBuffer_fault resp) eqn:Hab; [rewrite H in Hrun; discriminate|].
  destruct (writeFile_fault E _) eqn:Hw; [rewrite H in Hrun; discriminate|].
  rewrite extractAndCompressAudio_eq in H. cbv zeta in H.
  assert (Hap : path_join (os_tmpdir E)
                  (audio_temp_name
                     (Date_now E (trace (logged (EvWriteFile vp)
                                           (logged (EvFetch url) w))))) = ap).
  { unfold ap, audio_path_of. simpl. rewrite snoc2. reflexivity. }
  rewrite Hap in H.
  destruct (exec_fault E _) eqn:Hx; [rewrite H in Hrun; discriminate|].
  rewrite transcribeAudio_eq in H. cbv zeta in H.
  destruct (readFile_fault E _) eqn:Hr; [rewrite H in Hrun; discriminate|].
  destruct (whisper_outcome E _) as [e|result'] eqn:Hs;
    rewrite H in Hrun; [discriminate|].
  injection Hrun as <- <-.
  simpl in Hf, Hw, Hx, Hr, Hs.
  repeat rewrite <- app_assoc in Hw. repeat rewrite <- app_assoc in Hx.
  repeat rewrite <- app_assoc in Hr. repeat rewrite <- app_assoc in Hs.
  simpl in Hw, Hx, Hr, Hs.
  split; [exists resp; auto|]. repeat split; try assumption.
  simpl. repeat rewrite <- app_assoc. reflexivity.
Qed.

Lemma transcribeVideo_result_needs_every_step_witness :
  let E := all_succeed (mkResult "hello world" (Some (124 # 10))) in
  let url := "http://minio:9002/videos/k.mp4" in
  let w := world_with fresh_video in
  let script := pipeline_script url (video_path_of E w) (audio_path_of E url w) in
  whisper_outcome E (trace w ++ script)
  = inr (mkResult "hello world" (Some (124 # 10)))
  /\ trace (fst (transcribeVideo E url w))
     = trace w ++ script ++ [EvUnlink (video_path_of E w);
                             EvUnlink (audio_path_of E url w)].
Proof.
  intros E url w script.
  destruct (transcribeVideo_result_needs_every_step E url w
              (fst (transcribeVideo E url w))
              (mkResult "hello world" (Some (124 # 10))))
    as (_ & _ & _ & _ & Hs & Ht); [vm_compute; reflexivity|].
  split; [exact Hs|exact Ht].
Defined.
